(** * Smart AI-based Activity Planner: the Flask microservice [app.py]

    A shallow embedding of [src/app.py] and the proofs of its specification.

    Modelling conventions.
    - A Python [str] is a [list ascii]; every element stands for one code
      point.  The character classes of the [re] module ([\d], [\s], [\w])
      and the case mappings of [str.capitalize] are those CPython applies
      to the code points 0..127; the embedding covers ASCII text, and a code
      point above 127 is a caseless symbol outside every class.  String
      constants of the program that hold other characters (the two messages,
      the prompt) are kept as the UTF-8 bytes of the source file and are only
      ever copied or compared.
    - The regular expressions of the program are values of [regex], run by
      a backtracking matcher with the priorities of [re]: greedy
      quantifiers, leftmost alternative first.  [re.findall], [re.split],
      [re.sub] and [re.search] are all read off the one left-to-right
      iteration over non-overlapping matches, [finditer].
    - The two capabilities loaded at start-up, the sentiment pipeline and the
      Groq client, are [option] handles ([None] when loading raised); the
      calls made to them are recorded in a [World], threaded through the
      handler by a small state monad.
    - [json.loads] is library code: it is a parameter of the handler,
      returning [None] where Python raises [JSONDecodeError]. *)

From Stdlib Require Import Ascii String.
From Stdlib Require Import List Bool Arith Lia QArith.
Import ListNotations.

Set Implicit Arguments.
Set Warnings "-register-all".

#[local] Open Scope nat_scope.
#[local] Open Scope list_scope.

(** ** Python strings *)

Definition str : Type := list ascii.

(** A string literal of the source. *)
Definition py (s : string) : str := list_ascii_of_string s.

Definition str_eqb (a b : str) : bool :=
  if list_eq_dec ascii_dec a b then true else false.

Definition code (c : ascii) : nat := nat_of_ascii c.

Definition in_range (lo hi : nat) (c : ascii) : bool :=
  (lo <=? code c) && (code c <=? hi).

(** [\d] and [str.isdigit] *)
Definition is_digit (c : ascii) : bool := in_range 48 57 c.

(** [\s] and [str.isspace]: TAB, LF, VT, FF, CR, FS, GS, RS, US, SPACE *)
Definition is_space (c : ascii) : bool := in_range 9 13 c || in_range 28 32 c.

Definition is_upper (c : ascii) : bool := in_range 65 90 c.
Definition is_lower (c : ascii) : bool := in_range 97 122 c.

(** [\w]: letters, digits and the underscore *)
Definition is_word (c : ascii) : bool :=
  is_upper c || is_lower c || is_digit c || (code c =? 95).

Definition is_newline (c : ascii) : bool := code c =? 10.

Definition to_lower (c : ascii) : ascii :=
  if is_upper c then ascii_of_nat (code c + 32) else c.

Definition to_upper (c : ascii) : ascii :=
  if is_lower c then ascii_of_nat (code c - 32) else c.

Fixpoint drop_while (p : ascii -> bool) (s : str) : str :=
  match s with
  | c :: s' => if p c then drop_while p s' else s
  | [] => []
  end.

(** [str.lstrip()], [str.rstrip()], [str.strip()] without argument *)
Definition lstrip (s : str) : str := drop_while is_space s.

Definition rstrip (s : str) : str := rev (lstrip (rev s)).

Definition strip (s : str) : str := rstrip (lstrip s).

(** [str.capitalize()]: the first character in upper (title) case, every
    other character in lower case. *)
Definition capitalize (s : str) : str :=
  match s with
  | c :: s' => to_upper c :: map to_lower s'
  | [] => []
  end.

(** [sep.join(parts)] *)
Fixpoint join (sep : str) (parts : list str) : str :=
  match parts with
  | [] => []
  | [p] => p
  | p :: ps => p ++ sep ++ join sep ps
  end.

(** ** The regular expressions of [re], as far as the program uses them *)

Inductive regex : Type :=
| Eps                                (* the empty pattern *)
| Class (p : ascii -> bool)          (* one character of a class *)
| Seq (r1 r2 : regex)                (* r1 r2 *)
| Alt (r1 r2 : regex)                (* r1|r2 *)
| Opt (r : regex)                    (* r?  greedy *)
| Star (r : regex)                   (* r*  greedy *)
| WordBoundary                       (* \b *)
| EndAnchor.                         (* $ without re.MULTILINE *)

(** A continuation receives the character just consumed (for [\b]) and the
    text still to be read; it answers with the text left after the whole
    match, or [None] to make the matcher backtrack. *)
Definition cont : Type := option ascii -> str -> option str.

Definition word_before (prev : option ascii) : bool :=
  match prev with Some c => is_word c | None => false end.

Definition word_after (s : str) : bool :=
  match s with c :: _ => is_word c | [] => false end.

Definition or_else (a : option str) (b : option str) : option str :=
  match a with Some x => Some x | None => b end.

Fixpoint run (r : regex) (prev : option ascii) (s : str) (k : cont)
  {struct r} : option str :=
  match r with
  | Eps => k prev s
  | Class p =>
      match s with
      | c :: s' => if p c then k (Some c) s' else None
      | [] => None
      end
  | Seq r1 r2 => run r1 prev s (fun prev' s' => run r2 prev' s' k)
  | Alt r1 r2 => or_else (run r1 prev s k) (run r2 prev s k)
  | Opt r1 => or_else (run r1 prev s k) (k prev s)
  | Star r1 =>
      (fix loop (fuel : nat) (prev : option ascii) (s : str) {struct fuel}
         : option str :=
         match fuel with
         | 0 => k prev s
         | S fuel' =>
             or_else
               (run r1 prev s
                  (fun prev' s' =>
                     if length s' <? length s then loop fuel' prev' s'
                     else None))
               (k prev s)
         end) (length s) prev s
  | WordBoundary =>
      if xorb (word_before prev) (word_after s) then k prev s else None
  | EndAnchor =>
      match s with
      | [] => k prev s
      | [c] => if is_newline c then k prev s else None
      | _ => None
      end
  end.

(** [r{n}] and [r{lo,hi}] *)
Fixpoint exactly (n : nat) (r : regex) : regex :=
  match n with
  | 0 => Eps
  | 1 => r
  | S n' => Seq r (exactly n' r)
  end.

Fixpoint at_most (n : nat) (r : regex) : regex :=
  match n with
  | 0 => Eps
  | 1 => Opt r
  | S n' => Opt (Seq r (at_most n' r))
  end.

Definition between (lo hi : nat) (r : regex) : regex :=
  if hi <=? lo then exactly lo r else Seq (exactly lo r) (at_most (hi - lo) r).

(** A literal character, and a literal character under [re.I]. *)
Definition lit (c : ascii) : regex := Class (Ascii.eqb c).
Definition lit_i (c : ascii) : regex :=
  Class (fun x => Ascii.eqb (to_lower x) (to_lower c)).

(** [.] without and with [re.DOTALL] *)
Definition dot : regex := Class (fun c => negb (is_newline c)).
Definition dot_all : regex := Class (fun _ => true).

(** The match of [r] that starts exactly here: the matched text and the
    text after it. *)
Definition match_here (r : regex) (prev : option ascii) (s : str)
  : option (str * str) :=
  match run r prev s (fun _ s' => Some s') with
  | Some s' => Some (firstn (length s - length s') s, s')
  | None => None
  end.

Definition last_char (prev : option ascii) (m : str) : option ascii :=
  match rev m with c :: _ => Some c | [] => prev end.

(** What a pattern matches at a position: the matched text and the rest. *)
Definition matcher : Type := option ascii -> str -> option (str * str).

(** The left-to-right iteration over non-overlapping matches,
    [re.finditer]: every match with the unmatched text in front of it, and
    the unmatched text after the last match.  None of the program's four
    patterns can match the empty string, so a position with an empty match
    is passed over like a position with none. *)
Fixpoint iter_matches (mh : matcher) (fuel : nat) (prev : option ascii)
  (gap s : str) {struct fuel} : list (str * str) * str :=
  match fuel with
  | 0 => ([], gap ++ s)
  | S fuel' =>
      let skip :=
        match s with
        | c :: s' => iter_matches mh fuel' (Some c) (gap ++ [c]) s'
        | [] => ([], gap)
        end in
      match mh prev s with
      | Some (m, s') =>
          match m with
          | _ :: _ =>
              let (ms, tl) := iter_matches mh fuel' (last_char prev m) [] s' in
              ((gap, m) :: ms, tl)
          | [] => skip
          end
      | None => skip
      end
  end.

Definition finditer (r : regex) (s : str) : list (str * str) * str :=
  iter_matches (match_here r) (S (length s)) None [] s.

(** [re.findall(r, s)] for a pattern whose one group is the whole pattern *)
Definition re_findall (r : regex) (s : str) : list str :=
  map snd (fst (finditer r s)).

(** [re.split(r, s)] for a pattern without groups *)
Definition re_split (r : regex) (s : str) : list str :=
  map fst (fst (finditer r s)) ++ [snd (finditer r s)].

(** [re.sub(r, repl, s)] for a replacement without back-references *)
Definition re_sub (r : regex) (repl : str) (s : str) : str :=
  concat (map (fun gm => fst gm ++ repl) (fst (finditer r s)))
    ++ snd (finditer r s).

(** [re.search(r, s)], then [.group()] *)
Definition re_search (r : regex) (s : str) : option str :=
  match fst (finditer r s) with
  | (_, m) :: _ => Some m
  | [] => None
  end.

(** ** Helper utilities of [app.py] *)

(** [r'(\d{1,2}(?::\d{2})?\s*(?:am|pm)?)'] with [flags=re.I] *)
Definition time_re : regex :=
  Seq (between 1 2 (Class is_digit))
    (Seq (Opt (Seq (lit_i ":") (exactly 2 (Class is_digit))))
       (Seq (Star (Class is_space))
          (Opt (Alt (Seq (lit_i "a") (lit_i "m"))
                    (Seq (lit_i "p") (lit_i "m")))))).

Definition parse_time_range (text : str) : list str :=
  re_findall time_re text.

(** [r'[.,;]'] *)
Definition is_separator (c : ascii) : bool :=
  Ascii.eqb c "." || Ascii.eqb c "," || Ascii.eqb c ";".

Definition separator_re : regex := Class is_separator.

(** [r'\b\d.*$'] *)
Definition tail_re : regex :=
  Seq WordBoundary (Seq (Class is_digit) (Seq (Star dot) EndAnchor)).

Record Task : Type := mkTask {
  title : str;
  start : option str;
  end_ : option str
}.

Definition truthy (s : str) : bool :=
  match s with [] => false | _ :: _ => true end.

(** [[s.strip() for s in re.split(r'[.,;]', raw_text) if s.strip()]] *)
Definition sentences (raw_text : str) : list str :=
  map strip (filter (fun s => truthy (strip s)) (re_split separator_re raw_text)).

(** [re.sub(r'\b\d.*$', '', s).strip().capitalize()], then the default *)
Definition task_title (s : str) : str :=
  let t := capitalize (strip (re_sub tail_re [] s)) in
  if truthy t then t else py "Task".

(** The body of the [for] loop: [tasks] is the list built so far.  The
    unpacking of [(times + [None])[:2]] into two names needs a list of two;
    behind the guard it always gets one, so the last branch is never
    taken. *)
Definition loop_body (tasks : list Task) (s : str) : list Task :=
  let times := parse_time_range s in
  if negb (match times with [] => false | _ => true end) then tasks
  else
    match firstn 2 (map Some times ++ [None]) with
    | [start; end_] =>
        tasks ++ [ {| title := task_title s; start := start; end_ := end_ |} ]
    | _ => tasks
    end.

Definition build_tasks_from_text (raw_text : str) : list Task :=
  fold_left loop_body (sentences raw_text) [].

(** ** The outside world *)

(** What [json.loads] returns. *)
Inductive json : Type :=
| JNull
| JBool (b : bool)
| JNumber (lexeme : str)
| JString (s : str)
| JArray (items : list json)
| JObject (members : list (str * json)).

(** The keyword arguments of [client.chat.completions.create]: [model],
    the content of the one user message, [temperature]. *)
Record ChatRequest : Type := mkChatRequest {
  model : str;
  user_content : str;
  temperature : Q
}.

(** The outcome of the call and of reading
    [completion.choices[0].message.content]: an exception, or the text. *)
Inductive Completion : Type :=
| Raised
| Content (text : str).

Definition Groq : Type := ChatRequest -> Completion.

(** [sentiment_pipeline(span)[0]] *)
Record Sentiment : Type := mkSentiment {
  senti_label : str;
  senti_score : Q
}.

Definition Pipeline : Type := str -> Sentiment.

(** The calls made so far to the two capabilities, oldest first. *)
Record World : Type := mkWorld {
  classified : list str;
  requested : list ChatRequest
}.

Definition M (A : Type) : Type := World -> A * World.

Definition ret {A : Type} (a : A) : M A := fun w => (a, w).

Definition bind {A B : Type} (m : M A) (f : A -> M B) : M B :=
  fun w => let (a, w') := m w in f a w'.

Notation "x <- m ;; k" := (bind m (fun x => k))
  (at level 61, m at next level, right associativity).

Definition call_pipeline (p : Pipeline) (span : str) : M Sentiment :=
  fun w => (p span,
            {| classified := classified w ++ [span];
               requested := requested w |}).

Definition call_groq (c : Groq) (rq : ChatRequest) : M Completion :=
  fun w => (c rq,
            {| classified := classified w;
               requested := requested w ++ [rq] |}).

(** ** Dynamic wellness suggestions *)

Definition nl : str := [ascii_of_nat 10].
Definition dq : str := [ascii_of_nat 34].
Definition quoted (s : string) : str := dq ++ py s ++ dq.

(** [str(x)] of a field that holds a string or [None] *)
Definition show_field (x : option str) : str :=
  match x with Some s => s | None => py "None" end.

(** [f"- {t['title']} ({t['start']} - {t['end']})"] *)
Definition schedule_line (t : Task) : str :=
  py "- " ++ title t ++ py " (" ++ show_field (start t) ++ py " - "
    ++ show_field (end_ t) ++ py ")".

Definition schedule_text (tasks : list Task) : str :=
  join nl (map schedule_line tasks).

(** The f-string [prompt], line by line. *)
Definition prompt (tasks : list Task) (emotion : str) : str :=
  join nl
    [ [];
      py "You are a mindful productivity assistant.";
      py "The user has this schedule:";
      schedule_text tasks;
      [];
      py "The user's emotional state is: " ++ emotion ++ py ".";
      [];
      py "Generate 3 short, *time-specific* wellness or rest activities that fit between tasks.";
      py "Each suggestion must include:";
      py "- " ++ quoted "title" ++ py ": short label (e.g., " ++ quoted "Tea break ☕"
        ++ py ", " ++ quoted "Stretch 🧘" ++ py ", " ++ quoted "Quick walk 🚶" ++ py ")";
      py "- " ++ quoted "start" ++ py ": start time (HH:MM 24h or 12h with am/pm)";
      py "- " ++ quoted "end" ++ py ": end time (HH:MM 24h or 12h with am/pm)";
      [];
      py "⚠️ Respond only with valid JSON — no extra text, no explanations.";
      [];
      py "Example:";
      py "[";
      py "  { " ++ quoted "title" ++ py ": " ++ quoted "Stretch break 🧘" ++ py ", "
        ++ quoted "start" ++ py ": " ++ quoted "10:45" ++ py ", "
        ++ quoted "end" ++ py ": " ++ quoted "10:55" ++ py " },";
      py "  { " ++ quoted "title" ++ py ": " ++ quoted "Mindful tea ☕" ++ py ", "
        ++ quoted "start" ++ py ": " ++ quoted "15:10" ++ py ", "
        ++ quoted "end" ++ py ": " ++ quoted "15:25" ++ py " }";
      py "]";
      [] ].

Definition chat_request (tasks : list Task) (emotion : str) : ChatRequest :=
  {| model := py "llama-3.1-8b-instant";
     user_content := prompt tasks emotion;
     temperature := 4 # 10 |}.

(** [r'\[.*\]'] with [re.DOTALL] *)
Definition bracket_re : regex :=
  Seq (lit "[") (Seq (Star dot_all) (lit "]")).

(** ** The handler of [POST /api/plan] *)

(** The JSON object of the request body; its [text] member, when there
    is one, is a string. *)
Record Request : Type := mkRequest {
  text_member : option str
}.

Record Envelope : Type := mkEnvelope {
  sentiment : str;
  score : Q;
  detectedEmotion : str;
  taskCount : nat;
  tasks : list Task;
  suggestions : json;
  message : str
}.

Inductive Body : Type :=
| ErrorBody (error : str)
| PlanBody (envelope : Envelope).

Record Response : Type := mkResponse {
  status : nat;
  body : Body
}.

Definition hectic_message : str :=
  py "Day looks hectic. I’ve suggested some breaks below.".

Definition balanced_message : str :=
  py "Your plan seems balanced. Here are some gentle wellness suggestions.".

Section Service.

(** The module-level handles, set once when the process starts. *)
Variable client : option Groq.
Variable sentiment_pipeline : option Pipeline.

(** [json.loads]; [None] stands for [JSONDecodeError]. *)
Variable json_loads : str -> option json.

(** The [try] block once the completion has been requested; every
    exception ends in the [except] clause, which returns [[]]. *)
Definition read_completion (completion : Completion) : json :=
  match completion with
  | Raised => JArray []
  | Content text =>
      let raw_output := strip text in
      match re_search bracket_re raw_output with
      | Some span =>
          match json_loads span with
          | Some value => value
          | None => JArray []
          end
      | None => JArray []
      end
  end.

Definition generate_dynamic_suggestions (tasks : list Task) (emotion : str)
  : M json :=
  match tasks, client with
  | [], _ => ret (JArray [])
  | _ :: _, None => ret (JArray [])
  | _ :: _, Some groq =>
      completion <- call_groq groq (chat_request tasks emotion) ;;
      ret (read_completion completion)
  end.

Definition plan_day (data : Request) : M Response :=
  let text := match text_member data with Some t => t | None => [] end in
  if negb (truthy text) then
    ret {| status := 400; body := ErrorBody (py "No text provided") |}
  else
    match sentiment_pipeline with
    | None =>
        ret {| status := 500;
               body := ErrorBody (py "Sentiment model not loaded") |}
    | Some pipeline =>
        senti <- call_pipeline pipeline (firstn 500 text) ;;
        let sentiment := senti_label senti in
        let score := senti_score senti in
        let tasks := build_tasks_from_text text in
        let workload := length tasks in
        let hectic := 8 <=? workload in
        let emotion :=
          if str_eqb sentiment (py "NEGATIVE") || hectic
          then py "Stressed" else py "Balanced" in
        suggestions <- generate_dynamic_suggestions tasks emotion ;;
        ret {| status := 200;
               body := PlanBody
                 {| sentiment := sentiment;
                    score := score;
                    detectedEmotion := emotion;
                    taskCount := workload;
                    tasks := tasks;
                    suggestions := suggestions;
                    message :=
                      if hectic then hectic_message else balanced_message |} |}
    end.

End Service.

(** ** Observations on requests and responses *)

(** The text the handler works on: [data.get("text", "")]. *)
Definition text_of (data : Request) : str :=
  match text_member data with Some t => t | None => [] end.

(** The emotion of the handler, as a function of its two signals. *)
Definition emotion_of (label : str) (workload : nat) : str :=
  if str_eqb label (py "NEGATIVE") || (8 <=? workload)
  then py "Stressed" else py "Balanced".

(** The world after the classifier has been asked about [span]. *)
Definition after_classifier (span : str) (w : World) : World :=
  {| classified := classified w ++ [span]; requested := requested w |}.


(** The success envelope of a response, if it carries one. *)
Definition envelope_of (r : Response) : option Envelope :=
  match body r with PlanBody e => Some e | ErrorBody _ => None end.

(** ** Reference readings of the four patterns *)

(** A greedy [c*] over a character class: the longest run first, then one
    character less at a time. *)
Fixpoint star_class (p : ascii -> bool) (prev : option ascii) (s : str)
  (k : cont) : option str :=
  match s with
  | c :: s' =>
      if p c then or_else (star_class p (Some c) s' k) (k prev s)
      else k prev s
  | [] => k prev s
  end.

(** Splitting at every character of a class; [cur] is the piece being
    read. *)
Fixpoint split_on (p : ascii -> bool) (cur s : str) : list str :=
  match s with
  | c :: s' =>
      if p c then cur :: split_on p [] s' else split_on p (cur ++ [c]) s'
  | [] => [cur]
  end.

(** The time pattern read greedily, piece by piece; every function returns
    the text left after its piece. *)
Definition is_meridiem (a m : ascii) : bool :=
  (Ascii.eqb (to_lower a) "a" || Ascii.eqb (to_lower a) "p")
  && Ascii.eqb (to_lower m) "m".

Definition skip_digit (s : str) : str :=
  match s with
  | d :: s' => if is_digit d then s' else s
  | [] => []
  end.

Definition skip_minutes (s : str) : str :=
  match s with
  | c :: a :: b :: s' =>
      if Ascii.eqb c ":" && is_digit a && is_digit b then s' else s
  | _ => s
  end.

Definition skip_meridiem (s : str) : str :=
  match s with
  | a :: m :: s' => if is_meridiem a m then s' else s
  | _ => s
  end.

Definition time_rest (s : str) : option str :=
  match s with
  | d :: s' =>
      if is_digit d
      then Some (skip_meridiem (lstrip (skip_minutes (skip_digit s'))))
      else None
  | [] => None
  end.

(** The text in front of the suffix [rest] of [s]. *)
Definition consumed (s rest : str) : str :=
  firstn (length s - length rest) s.

Definition time_here : matcher :=
  fun _ s =>
    match time_rest s with
    | Some rest => Some (consumed s rest, rest)
    | None => None
    end.

(** ** Time expressions, declaratively *)

(** One or two digits. *)
Inductive hours : str -> Prop :=
| hours_one d : is_digit d = true -> hours [d]
| hours_two d1 d2 :
    is_digit d1 = true -> is_digit d2 = true -> hours [d1; d2].

(** Nothing, or a colon and two digits. *)
Inductive minutes : str -> Prop :=
| minutes_none : minutes []
| minutes_some a b :
    is_digit a = true -> is_digit b = true -> minutes [":"%char; a; b].

(** Nothing, or [am] / [pm] in any mixture of cases. *)
Inductive meridiem : str -> Prop :=
| meridiem_none : meridiem []
| meridiem_some a m : is_meridiem a m = true -> meridiem [a; m].

Definition spaces (ws : str) : Prop := Forall (fun c => is_space c = true) ws.

(** What the pattern of [parse_time_range] matches: hours, optional
    minutes, a run of whitespace, optional am/pm. *)
Definition time_shape (m : str) : Prop :=
  exists hh mm ws ap,
    m = hh ++ mm ++ ws ++ ap
    /\ hours hh /\ minutes mm /\ spaces ws /\ meridiem ap.


(** [m] is the longest time expression that [t] starts with. *)
Definition longest_time (m t : str) : Prop :=
  time_shape m
  /\ (exists r, t = m ++ r)
  /\ (forall m' r', time_shape m' -> t = m' ++ r' -> length m' <= length m).

(** Reading a text from left to right: a character that starts no time
    expression is passed over; otherwise the longest time expression that
    starts there is taken, and reading goes on behind it. *)
Inductive extraction : str -> list str -> Prop :=
| extraction_end : extraction [] []
| extraction_skip c s ms :
    is_digit c = false -> extraction s ms -> extraction (c :: s) ms
| extraction_take m s t ms :
    t = m ++ s -> longest_time m t -> extraction s ms ->
    extraction t (m :: ms).

(** ** The title and the bracketed span, declaratively *)





(** The text behind the last closing bracket. *)
Fixpoint after_last_close (s : str) : option str :=
  match s with
  | c :: s' =>
      or_else (after_last_close s') (if Ascii.eqb "]" c then Some s' else None)
  | [] => None
  end.

Definition bracket_here : matcher :=
  fun _ s =>
    match s with
    | c :: s' =>
        if Ascii.eqb "[" c then
          match after_last_close s' with
          | Some rest => Some (consumed s rest, rest)
          | None => None
          end
        else None
    | [] => None
    end.

(** The text holds an opening bracket with a closing bracket somewhere
    behind it. *)
Definition has_bracketed_span (s : str) : Prop :=
  exists a b c, s = a ++ "["%char :: b ++ "]"%char :: c.

(** ** The Task Builder, declaratively *)

(** [pieces] are the stretches of [raw] between its separators: no piece
    holds a separator, and the pieces with the separators put back between
    them give [raw]. *)
Inductive cut_at_separators : str -> list str -> Prop :=
| cut_last piece :
    forallb (fun c => negb (is_separator c)) piece = true ->
    cut_at_separators piece [piece]
| cut_more piece c rest pieces :
    forallb (fun c => negb (is_separator c)) piece = true ->
    is_separator c = true ->
    cut_at_separators rest pieces ->
    cut_at_separators (piece ++ c :: rest) (piece :: pieces).

(** Whether the extractor finds a time expression in the fragment. *)
Definition has_times (s : str) : bool :=
  match parse_time_range s with [] => false | _ :: _ => true end.

(** The task a fragment stands for. *)
Definition task_of (s : str) : list Task :=
  match parse_time_range s with
  | [] => []
  | first :: others =>
      [ {| title := task_title s;
           start := Some first;
           end_ := hd_error others |} ]
  end.




(** Cutting a fragment at the first digit that starts a word: no letter,
    digit or underscore stands in front of it. *)
Fixpoint cut_at_number (prev : option ascii) (s : str) : str :=
  match s with
  | c :: s' =>
      if is_digit c && negb (word_before prev) then []
      else c :: cut_at_number (Some c) s'
  | [] => []
  end.

(** The title by design: the fragment cut at its first number, trimmed, the
    first character in upper case and all others in lower case. *)
Definition title_by_design (s : str) : str :=
  let t := capitalize (strip (cut_at_number None s)) in
  if truthy t then t else py "Task".

(** ** Degraded outcomes of the LLM call *)

(** The three ways the call can fail to give suggestions: it raises; its
    text holds no bracketed span; the span found is not JSON. *)
Definition degraded (json_loads : str -> option json) (c : Completion) : Prop :=
  match c with
  | Raised => True
  | Content text =>
      ~ has_bracketed_span text
      \/ exists span,
           re_search bracket_re (strip text) = Some span
           /\ json_loads span = None
  end.

(** The response of the handler and the world it leaves. *)
Definition respond (client : option Groq) (sentiment_pipeline : option Pipeline)
  (json_loads : str -> option json) (data : Request) (w : World) : Response :=
  fst (plan_day client sentiment_pipeline json_loads data w).

Definition world_after (client : option Groq)
  (sentiment_pipeline : option Pipeline)
  (json_loads : str -> option json) (data : Request) (w : World) : World :=
  snd (plan_day client sentiment_pipeline json_loads data w).

(** ** Sample capabilities and requests *)

(** A stand-in decoder: like [json.loads] it accepts the empty array,
    written with any blanks inside, and rejects text that is not JSON; it
    knows no other JSON value. *)
Definition loads_empty_array (s : str) : option json :=
  match s with
  | c :: s' =>
      if Ascii.eqb c "[" then
        match drop_while (fun x => Ascii.eqb x " ") s' with
        | [d] => if Ascii.eqb d "]" then Some (JArray []) else None
        | _ => None
        end
      else None
  | [] => None
  end.

(** A classifier that finds everything negative, and one that finds
    everything positive. *)
Definition gloomy_pipeline : Pipeline :=
  fun _ => {| senti_label := py "NEGATIVE"; senti_score := 99 # 100 |}.

Definition sunny_pipeline : Pipeline :=
  fun _ => {| senti_label := py "POSITIVE"; senti_score := 97 # 100 |}.

(** An LLM that answers with something that is not JSON, one that answers
    without any bracket, one whose call raises. *)
Definition chatty_groq : Groq :=
  fun _ => Content (py "Here you go: [tea at 4, walk at 6] Enjoy!").

Definition vague_groq : Groq :=
  fun _ => Content (py "Take a break whenever you feel like it.").

Definition failing_groq : Groq := fun _ => Raised.

Definition fresh_world : World := {| classified := []; requested := [] |}.

Definition gym_request : Request :=
  {| text_member := Some (py "Gym at 6, then lunch at 12 to 1. Relax") |}.

(** ** Vocabulary for further properties *)

(** [a] occurs in [s] as a stretch of consecutive characters. *)
Definition infix (a s : str) : Prop := exists pre post, s = pre ++ a ++ post.

(** How many characters of a class a text holds. *)
Definition count (p : ascii -> bool) (s : str) : nat := length (filter p s).


(** The text as the extractor leaves it: each returned match with the
    skipped text in front of it, and the skipped text behind the last
    match. *)
Definition reassemble (gms : list (str * str)) (last : str) : str :=
  concat (map (fun gm => fst gm ++ snd gm) gms) ++ last.

(** * Properties *)

(** ** Strings *)

Lemma str_eqb_eq (a b : str) : str_eqb a b = true <-> a = b.
Proof.
  unfold str_eqb. destruct (list_eq_dec ascii_dec a b); split; congruence.
Qed.

Lemma truthy_false (s : str) : truthy s = false <-> s = [].
Proof. destruct s; simpl; split; congruence. Qed.

Lemma truthy_true (s : str) : truthy s = true <-> s <> [].
Proof. destruct s; simpl; split; congruence. Qed.

(** ** The matcher on the program's patterns *)

Lemma run_star_class (p : ascii -> bool) (prev : option ascii) (s : str)
  (k : cont) :
  run (Star (Class p)) prev s k = star_class p prev s k.
Proof.
  cbn [run]. generalize (Nat.le_refl (length s)).
  generalize (length s) at 2 3 as fuel. intros fuel. revert prev s.
  induction fuel as [|fuel IH]; intros prev s Hlen.
  - destruct s; [reflexivity|simpl in Hlen; lia].
  - destruct s as [|c s]; [reflexivity|].
    cbn [star_class]. destruct (p c); [|reflexivity].
    replace (length s <? length (c :: s)) with true
      by (symmetry; apply Nat.ltb_lt; simpl; lia).
    rewrite IH by (simpl in Hlen; lia). reflexivity.
Qed.

(** With a continuation that never fails, [c*] keeps its longest run. *)
Lemma star_class_total (p : ascii -> bool) (f : str -> str) (k : cont) :
  (forall prev s, k prev s = Some (f s)) ->
  forall prev s, star_class p prev s k = Some (f (drop_while p s)).
Proof.
  intros Hk prev s. revert prev.
  induction s as [|c s IH]; intros prev; cbn [star_class drop_while].
  - apply Hk.
  - destruct (p c); [|apply Hk]. rewrite IH. reflexivity.
Qed.

Lemma iter_matches_ext (mh1 mh2 : matcher) :
  (forall prev s, mh1 prev s = mh2 prev s) ->
  forall fuel prev gap s,
    iter_matches mh1 fuel prev gap s = iter_matches mh2 fuel prev gap s.
Proof.
  intros H fuel. induction fuel as [|fuel IH]; intros prev gap s.
  - reflexivity.
  - cbn [iter_matches]. rewrite H.
    destruct (mh2 prev s) as [[[|c m] s']|]; rewrite ?IH;
      destruct s; rewrite ?IH; reflexivity.
Qed.

(** *** [re.split(r'[.,;]', raw_text)] *)

Lemma firstn_one (c : ascii) (s : str) :
  firstn (length (c :: s) - length s) (c :: s) = [c].
Proof.
  replace (length (c :: s) - length s) with 1 by (cbn [length]; lia).
  reflexivity.
Qed.

Lemma match_here_class (p : ascii -> bool) (prev : option ascii) (s : str) :
  match_here (Class p) prev s =
    match s with
    | c :: s' => if p c then Some ([c], s') else None
    | [] => None
    end.
Proof.
  unfold match_here. destruct s as [|c s]; [reflexivity|]. cbn [run].
  destruct (p c); [|reflexivity]. now rewrite firstn_one.
Qed.

Lemma iter_class_split (p : ascii -> bool) :
  forall fuel prev gap s,
    length s < fuel ->
    let it := iter_matches (match_here (Class p)) fuel prev gap s in
    map fst (fst it) ++ [snd it] = split_on p gap s.
Proof.
  induction fuel as [|fuel IH]; intros prev gap s Hlen; [lia|].
  cbn [iter_matches]. rewrite match_here_class.
  destruct s as [|c s]; [reflexivity|]. cbn [split_on].
  simpl in Hlen. destruct (p c).
  - specialize (IH (last_char prev [c]) [] s ltac:(lia)). cbn zeta in IH.
    destruct (iter_matches _ fuel _ [] s) as [ms tl]. cbn [fst snd map app] in *.
    now rewrite IH.
  - apply IH. lia.
Qed.

Lemma re_split_class (p : ascii -> bool) (s : str) :
  re_split (Class p) s = split_on p [] s.
Proof.
  unfold re_split, finditer. apply (@iter_class_split p (S (length s))). lia.
Qed.

(** *** [re.findall] of the time pattern *)

Lemma lower_colon (x : ascii) :
  Ascii.eqb (to_lower x) (to_lower ":") = Ascii.eqb x ":".
Proof. destruct x as [[] [] [] [] [] [] [] []]; reflexivity. Qed.

Section TimePattern.

Variable k : cont.
Variable f : str -> str.
Hypothesis k_total : forall prev s, k prev s = Some (f s).

Lemma run_meridiem (prev : option ascii) (s : str) :
  run (Opt (Alt (Seq (lit_i "a") (lit_i "m")) (Seq (lit_i "p") (lit_i "m"))))
    prev s k = Some (f (skip_meridiem s)).
Proof.
  cbn [run lit_i]. change (to_lower "a") with "a"%char.
  change (to_lower "p") with "p"%char. change (to_lower "m") with "m"%char.
  unfold skip_meridiem, is_meridiem.
  destruct s as [|a [|m s]].
  - apply k_total.
  - destruct (Ascii.eqb (to_lower a) "a"), (Ascii.eqb (to_lower a) "p");
      rewrite ?k_total; reflexivity.
  - destruct (Ascii.eqb (to_lower a) "a"), (Ascii.eqb (to_lower a) "p"),
      (Ascii.eqb (to_lower m) "m"); rewrite ?k_total; reflexivity.
Qed.

Lemma run_spaces (prev : option ascii) (s : str) :
  run (Star (Class is_space)) prev s k = Some (f (lstrip s)).
Proof.
  rewrite run_star_class. now apply star_class_total.
Qed.

Lemma run_minutes (prev : option ascii) (s : str) :
  run (Opt (Seq (lit_i ":") (exactly 2 (Class is_digit)))) prev s k
  = Some (f (skip_minutes s)).
Proof.
  cbn [run lit_i exactly]. unfold skip_minutes.
  destruct s as [|c s]; cbn [or_else]; [apply k_total|].
  rewrite lower_colon. destruct (Ascii.eqb c ":"); cbn [or_else andb].
  2:{ rewrite k_total. now destruct s as [|a [|b s]]. }
  destruct s as [|a s]; cbn [or_else]; [apply k_total|].
  destruct (is_digit a); cbn [or_else andb].
  2:{ rewrite k_total. now destruct s. }
  destruct s as [|b s]; cbn [or_else]; [apply k_total|].
  destruct (is_digit b); cbn [or_else]; now rewrite k_total.
Qed.

Lemma run_second_digit (prev : option ascii) (s : str) :
  run (at_most 1 (Class is_digit)) prev s k = Some (f (skip_digit s)).
Proof.
  cbn [run at_most]. unfold skip_digit.
  destruct s as [|d s]; cbn [or_else]; [apply k_total|].
  destruct (is_digit d); cbn [or_else]; now rewrite k_total.
Qed.

End TimePattern.

Lemma run_time_re (prev : option ascii) (s : str) :
  run time_re prev s (fun _ s' => Some s') = time_rest s.
Proof.
  change (run time_re prev s (fun _ s' => Some s')) with
    (run (Class is_digit) prev s (fun p1 s1 =>
     run (at_most 1 (Class is_digit)) p1 s1 (fun p2 s2 =>
     run (Opt (Seq (lit_i ":") (exactly 2 (Class is_digit)))) p2 s2 (fun p3 s3 =>
     run (Star (Class is_space)) p3 s3 (fun p4 s4 =>
     run (Opt (Alt (Seq (lit_i "a") (lit_i "m")) (Seq (lit_i "p") (lit_i "m"))))
       p4 s4 (fun _ s' => Some s')))))).
  destruct s as [|d s]; [reflexivity|].
  change (run (Class is_digit) prev (d :: s) ?k)
    with (if is_digit d then k (Some d) s else None).
  cbn [time_rest]. destruct (is_digit d); [|reflexivity]. cbv beta.
  apply run_second_digit
    with (f := fun s => skip_meridiem (lstrip (skip_minutes s))).
  intros p1 s1.
  apply run_minutes with (f := fun s => skip_meridiem (lstrip s)).
  intros p2 s2.
  apply run_spaces with (f := skip_meridiem).
  intros p3 s3.
  apply run_meridiem with (f := fun s => s). reflexivity.
Qed.

Lemma match_here_time (prev : option ascii) (s : str) :
  match_here time_re prev s = time_here prev s.
Proof.
  unfold match_here, time_here. rewrite run_time_re. reflexivity.
Qed.

Lemma consumed_app (m rest : str) : consumed (m ++ rest) rest = m.
Proof.
  unfold consumed. rewrite length_app, Nat.add_sub.
  rewrite firstn_app, Nat.sub_diag, firstn_all. cbn [firstn].
  apply app_nil_r.
Qed.

(** Every piece of the greedy reading takes a prefix of the right form. *)
Lemma skip_digit_piece (s : str) :
  exists x, s = x ++ skip_digit s
            /\ (x = [] \/ exists d, x = [d] /\ is_digit d = true).
Proof.
  destruct s as [|d s]; cbn [skip_digit]; [exists []; auto|].
  destruct (is_digit d) eqn:E; [exists [d]; eauto|exists []; auto].
Qed.

Lemma skip_minutes_piece (s : str) :
  exists x, s = x ++ skip_minutes s /\ minutes x.
Proof.
  unfold skip_minutes.
  destruct s as [|c [|a [|b s]]]; try (exists []; split; [reflexivity|constructor]).
  destruct (Ascii.eqb c ":") eqn:Ec; cbn [andb];
    [|exists []; split; [reflexivity|constructor]].
  destruct (is_digit a) eqn:Ea; cbn [andb];
    [|exists []; split; [reflexivity|constructor]].
  destruct (is_digit b) eqn:Eb;
    [|exists []; split; [reflexivity|constructor]].
  apply Ascii.eqb_eq in Ec. subst c.
  exists [":"%char; a; b]. split; [reflexivity|now constructor].
Qed.

Lemma drop_while_piece (p : ascii -> bool) (s : str) :
  exists x, s = x ++ drop_while p s /\ Forall (fun c => p c = true) x.
Proof.
  induction s as [|c s [x [Hx Hall]]]; cbn [drop_while]; [exists []; auto|].
  destruct (p c) eqn:E; [|exists []; auto].
  exists (c :: x). split; [cbn; congruence|now constructor].
Qed.

Lemma skip_meridiem_piece (s : str) :
  exists x, s = x ++ skip_meridiem s /\ meridiem x.
Proof.
  unfold skip_meridiem.
  destruct s as [|a [|m s]]; try (exists []; split; [reflexivity|constructor]).
  destruct (is_meridiem a m) eqn:E;
    [exists [a; m]; split; [reflexivity|now constructor]
    |exists []; split; [reflexivity|constructor]].
Qed.

Lemma time_rest_shape (s rest : str) :
  time_rest s = Some rest ->
  exists m, s = m ++ rest /\ m <> [] /\ time_shape m.
Proof.
  destruct s as [|d s]; cbn [time_rest]; [discriminate|].
  destruct (is_digit d) eqn:Ed; [|discriminate]. intros [= <-].
  destruct (skip_digit_piece s) as [x1 [E1 H1]].
  destruct (skip_minutes_piece (skip_digit s)) as [x2 [E2 H2]].
  destruct (drop_while_piece is_space (skip_minutes (skip_digit s)))
    as [x3 [E3 H3]].
  destruct (skip_meridiem_piece (lstrip (skip_minutes (skip_digit s))))
    as [x4 [E4 H4]].
  fold (lstrip (skip_minutes (skip_digit s))) in E3.
  exists ((d :: x1) ++ x2 ++ x3 ++ x4). split; [|split].
  - rewrite E1 at 1. rewrite E2 at 1. rewrite E3 at 1. rewrite E4 at 1.
    cbn [app]. now rewrite <- !app_assoc.
  - discriminate.
  - exists (d :: x1), x2, x3, x4. repeat split; auto.
    destruct H1 as [->|[d2 [-> Hd2]]]; now constructor.
Qed.

(** Character facts the greedy reading rests on. *)
Lemma digit_not_space (c : ascii) : is_digit c = true -> is_space c = false.
Proof. destruct c as [[] [] [] [] [] [] [] []]; (discriminate || reflexivity). Qed.

Lemma digit_not_colon (c : ascii) : is_digit c = true -> c <> ":"%char.
Proof. intros H ->. discriminate. Qed.

Lemma digit_not_meridiem (c m : ascii) :
  is_digit c = true -> is_meridiem c m = false.
Proof.
  unfold is_meridiem. intros H.
  replace (Ascii.eqb (to_lower c) "a" || Ascii.eqb (to_lower c) "p") with false;
    [reflexivity|].
  destruct c as [[] [] [] [] [] [] [] []]; (discriminate || reflexivity).
Qed.

Lemma space_not_meridiem (c m : ascii) :
  is_space c = true -> is_meridiem c m = false.
Proof.
  unfold is_meridiem. intros H.
  replace (Ascii.eqb (to_lower c) "a" || Ascii.eqb (to_lower c) "p") with false;
    [reflexivity|].
  destruct c as [[] [] [] [] [] [] [] []]; (discriminate || reflexivity).
Qed.

Lemma colon_not_meridiem (m : ascii) : is_meridiem ":" m = false.
Proof. reflexivity. Qed.

Lemma drop_while_length (p : ascii -> bool) (s : str) :
  length (drop_while p s) <= length s.
Proof.
  induction s as [|c s IH]; cbn [drop_while]; [lia|].
  destruct (p c); cbn [length]; lia.
Qed.

Lemma skip_digit_length (s : str) : length (skip_digit s) <= length s.
Proof.
  destruct s as [|d s]; cbn [skip_digit]; [lia|].
  destruct (is_digit d); cbn [length]; lia.
Qed.

Lemma skip_minutes_length (s : str) : length (skip_minutes s) <= length s.
Proof.
  destruct (skip_minutes_piece s) as [x [E _]]. rewrite E at 2.
  rewrite length_app. lia.
Qed.

Lemma skip_meridiem_length (s : str) : length (skip_meridiem s) <= length s.
Proof.
  destruct (skip_meridiem_piece s) as [x [E _]]. rewrite E at 2.
  rewrite length_app. lia.
Qed.

(** Pieces that must be empty because of the character they would start
    with. *)
Lemma spaces_empty (c : ascii) (ws rest tl : str) :
  c :: tl = ws ++ rest -> spaces ws -> is_space c = false -> ws = [].
Proof.
  intros E H Hc. destruct ws as [|x ws]; [reflexivity|].
  injection E as <- _. inversion H; congruence.
Qed.

Lemma meridiem_empty (c : ascii) (ap rest tl : str) :
  c :: tl = ap ++ rest -> meridiem ap ->
  (forall m, is_meridiem c m = false) -> ap = [].
Proof.
  intros E H Hc. destruct H as [|a m Ham]; [reflexivity|].
  injection E as <- _. now rewrite Hc in Ham.
Qed.

Lemma minutes_empty (c : ascii) (mm rest tl : str) :
  c :: tl = mm ++ rest -> minutes mm -> c <> ":"%char -> mm = [].
Proof.
  intros E H Hc. destruct H as [|a b Ha Hb]; [reflexivity|].
  injection E as E1 _. contradiction.
Qed.

(** No time expression runs further than the greedy reading: stage by
    stage, from the last piece to the first. *)
Lemma meridiem_stage (s ap r : str) :
  s = ap ++ r -> meridiem ap -> length (skip_meridiem s) <= length r.
Proof.
  intros -> [|a m Ham]; cbn [app].
  - apply skip_meridiem_length.
  - cbn [skip_meridiem]. now rewrite Ham.
Qed.

Lemma spaces_stage (s ws ap r : str) :
  s = ws ++ ap ++ r -> spaces ws -> meridiem ap ->
  length (skip_meridiem (lstrip s)) <= length r.
Proof.
  intros -> Hws Hap. induction Hws as [|c ws Hc Hws IH]; cbn [app].
  - destruct Hap as [|a m Ham]; cbn [app].
    + etransitivity; [apply skip_meridiem_length|apply drop_while_length].
    + unfold lstrip. cbn [drop_while].
      destruct (is_space a) eqn:Ea;
        [now rewrite (space_not_meridiem a m Ea) in Ham|].
      cbn [skip_meridiem]. now rewrite Ham.
  - unfold lstrip. cbn [drop_while]. rewrite Hc. exact IH.
Qed.

Lemma tail_length (s : str) :
  length (skip_meridiem (lstrip (skip_minutes s))) <= length s.
Proof.
  etransitivity; [apply skip_meridiem_length|].
  etransitivity; [apply drop_while_length|apply skip_minutes_length].
Qed.

Lemma minutes_stage (s mm ws ap r : str) :
  s = mm ++ ws ++ ap ++ r -> minutes mm -> spaces ws -> meridiem ap ->
  length (skip_meridiem (lstrip (skip_minutes s))) <= length r.
Proof.
  intros E Hmm Hws Hap. destruct Hmm as [|a b Ha Hb].
  - cbn [app] in E.
    destruct (skip_minutes_piece s) as [x [Ex Hx]].
    inversion Hx as [Hnil|a b Ha Hb Hsome]; subst x.
    + cbn [app] in Ex. rewrite <- Ex. now apply spaces_stage with ws ap.
    + assert (ws = []) as ->.
      { rewrite Ex in E. cbn [app] in E.
        now apply (spaces_empty _ E). }
      assert (ap = []) as ->.
      { rewrite Ex in E. cbn [app] in E.
        apply (meridiem_empty _ E Hap). apply colon_not_meridiem. }
      cbn [app] in E. subst r. apply tail_length.
  - subst s. cbn [app skip_minutes]. rewrite Ha, Hb, Ascii.eqb_refl.
    cbn [andb]. now apply spaces_stage with ws ap.
Qed.

Lemma digit_stage (s x mm ws ap r : str) :
  s = x ++ mm ++ ws ++ ap ++ r ->
  (x = [] \/ exists d, x = [d] /\ is_digit d = true) ->
  minutes mm -> spaces ws -> meridiem ap ->
  length (skip_meridiem (lstrip (skip_minutes (skip_digit s)))) <= length r.
Proof.
  intros E Hx Hmm Hws Hap. destruct Hx as [->|[d [-> Hd]]].
  - cbn [app] in E. destruct s as [|c s'].
    + cbn [skip_digit]. now apply minutes_stage with mm ws ap.
    + cbn [skip_digit]. destruct (is_digit c) eqn:Ec.
      * assert (mm = []) as ->
            by (apply (minutes_empty _ E Hmm); now apply digit_not_colon).
        cbn [app] in E.
        assert (ws = []) as ->
            by (apply (spaces_empty _ E Hws); now apply digit_not_space).
        cbn [app] in E.
        assert (ap = []) as ->
            by (apply (meridiem_empty _ E Hap); intros m;
                now apply digit_not_meridiem).
        cbn [app] in E. subst r. cbn [length].
        pose proof (tail_length s'). lia.
      * now apply minutes_stage with mm ws ap.
  - subst s. cbn [app skip_digit]. rewrite Hd.
    now apply minutes_stage with mm ws ap.
Qed.

Lemma time_rest_longest (s rest m' r' : str) :
  time_rest s = Some rest -> time_shape m' -> s = m' ++ r' ->
  length rest <= length r'.
Proof.
  intros Hrest [hh [mm [ws [ap [-> [Hhh [Hmm [Hws Hap]]]]]]]] E.
  destruct s as [|d s]; cbn [time_rest] in Hrest; [discriminate|].
  destruct (is_digit d); [|discriminate]. injection Hrest as <-.
  rewrite <- !app_assoc in E.
  destruct Hhh as [d1 Hd1|d1 d2 Hd1 Hd2]; cbn [app] in E; injection E as _ E.
  - apply digit_stage with [] mm ws ap; auto.
  - apply digit_stage with [d2] mm ws ap; eauto.
Qed.

Lemma time_rest_none (s : str) :
  time_rest s = None ->
  match s with c :: _ => is_digit c = false | [] => True end.
Proof.
  destruct s as [|d s]; cbn [time_rest]; [trivial|].
  now destruct (is_digit d).
Qed.

Lemma time_rest_longest_time (s rest : str) :
  time_rest s = Some rest ->
  s = consumed s rest ++ rest
  /\ consumed s rest <> []
  /\ longest_time (consumed s rest) s.
Proof.
  intros H. destruct (time_rest_shape s H) as [m [E [Hne Hshape]]].
  subst s. rewrite consumed_app. split; [reflexivity|]. split; [exact Hne|].
  split; [exact Hshape|]. split; [now exists rest|].
  intros m' r' Hm' E'.
  pose proof (time_rest_longest _ H Hm' E') as Hlen.
  apply (f_equal (@length ascii)) in E'. rewrite !length_app in E'. lia.
Qed.

Lemma parse_time_range_iter (text : str) :
  parse_time_range text =
    map snd (fst (iter_matches time_here (S (length text)) None [] text)).
Proof.
  unfold parse_time_range, re_findall, finditer.
  now rewrite (iter_matches_ext _ _ match_here_time).
Qed.

Lemma iter_time_extraction :
  forall fuel prev gap s,
    length s < fuel ->
    extraction s (map snd (fst (iter_matches time_here fuel prev gap s))).
Proof.
  induction fuel as [|fuel IH]; intros prev gap s Hlen; [lia|].
  cbn [iter_matches]. unfold time_here at 1.
  destruct (time_rest s) as [rest|] eqn:E.
  - destruct (time_rest_longest_time _ E) as [Hs [Hne Hlong]].
    destruct (consumed s rest) as [|c m] eqn:Ec; [contradiction|].
    assert (Hrest : length rest < fuel).
    { apply (f_equal (@length ascii)) in Hs.
      rewrite length_app in Hs. cbn [length] in Hs. lia. }
    specialize (IH (last_char prev (c :: m)) [] rest Hrest).
    destruct (iter_matches time_here fuel _ [] rest) as [ms tl].
    cbn [fst snd map] in *. now apply extraction_take with rest.
  - apply time_rest_none in E. destruct s as [|c s].
    + constructor.
    + apply extraction_skip; [exact E|]. apply IH. cbn [length] in Hlen. lia.
Qed.

Lemma time_shape_starts (m : str) :
  time_shape m -> exists d tl, m = d :: tl /\ is_digit d = true.
Proof.
  intros [hh [mm [ws [ap [-> [Hhh _]]]]]].
  destruct Hhh as [d Hd|d1 d2 Hd1 Hd2]; cbn [app]; eauto.
Qed.




(** *** [re.sub(r'\b\d.*$', '', s)] *)










(** *** [re.search(r'\[.*\]', raw_output, re.DOTALL)] *)

Lemma star_all_close (prev : option ascii) (s : str) :
  star_class (fun _ => true) prev s
    (fun p s' => run (lit "]") p s' (fun _ s'' => Some s''))
  = after_last_close s.
Proof.
  revert prev. induction s as [|c s IH]; intros prev; [reflexivity|].
  cbn [star_class after_last_close]. now rewrite IH.
Qed.

Lemma match_here_bracket (prev : option ascii) (s : str) :
  match_here bracket_re prev s = bracket_here prev s.
Proof.
  unfold match_here, bracket_re, bracket_here.
  destruct s as [|c s]; [reflexivity|].
  change (run (Seq (lit "[") (Seq (Star dot_all) (lit "]"))) prev (c :: s) ?k)
    with (if Ascii.eqb "[" c
          then run (Star dot_all) (Some c) s (fun p s' => run (lit "]") p s' k)
          else None).
  destruct (Ascii.eqb "[" c); [|reflexivity].
  unfold dot_all. rewrite run_star_class, star_all_close.
  now destruct (after_last_close s).
Qed.

Lemma after_last_close_some (s rest : str) :
  after_last_close s = Some rest -> exists x, s = x ++ "]"%char :: rest.
Proof.
  revert rest. induction s as [|c s IH]; intros rest; [discriminate|].
  cbn [after_last_close]. destruct (after_last_close s) as [r|]; cbn [or_else].
  - intros [= <-]. destruct (IH r eq_refl) as [x ->]. now exists (c :: x).
  - destruct (Ascii.eqb "]" c) eqn:Ec; [|discriminate].
    apply Ascii.eqb_eq in Ec. subst c. intros [= <-]. now exists [].
Qed.

Lemma after_last_close_found (b c : str) :
  after_last_close (b ++ "]"%char :: c) <> None.
Proof.
  induction b as [|x b IH]; cbn [app after_last_close].
  - destruct (after_last_close c); discriminate.
  - destruct (after_last_close (b ++ "]"%char :: c)); [discriminate|].
    now contradiction IH.
Qed.

Lemma bracket_here_some (prev : option ascii) (s m rest : str) :
  bracket_here prev s = Some (m, rest) ->
  exists b, s = "["%char :: b ++ "]"%char :: rest /\ m = "["%char :: b ++ ["]"%char].
Proof.
  unfold bracket_here. destruct s as [|c s]; [discriminate|].
  destruct (Ascii.eqb "[" c) eqn:Ec; [|discriminate].
  apply Ascii.eqb_eq in Ec. subst c.
  destruct (after_last_close s) as [r|] eqn:E; [|discriminate].
  intros [= <- <-]. destruct (after_last_close_some _ E) as [b ->].
  exists b. split; [reflexivity|].
  change ("["%char :: b ++ "]"%char :: r)
    with (("["%char :: b) ++ "]"%char :: r).
  replace (("["%char :: b) ++ "]"%char :: r)
    with (("["%char :: b ++ ["]"%char]) ++ r)
    by (cbn [app]; now rewrite <- app_assoc).
  apply consumed_app.
Qed.

Lemma bracket_here_none (prev : option ascii) (b c : str) :
  bracket_here prev ("["%char :: b ++ "]"%char :: c) <> None.
Proof.
  cbn [bracket_here]. rewrite Ascii.eqb_refl.
  pose proof (after_last_close_found b c).
  now destruct (after_last_close (b ++ "]"%char :: c)).
Qed.

Lemma iter_bracket_none :
  forall fuel prev gap s,
    length s < fuel ->
    fst (iter_matches bracket_here fuel prev gap s) = []
    <-> ~ has_bracketed_span s.
Proof.
  induction fuel as [|fuel IH]; intros prev gap s Hlen; [lia|].
  cbn [iter_matches].
  destruct (bracket_here prev s) as [[m rest]|] eqn:E.
  - destruct (bracket_here_some _ _ E) as [b [-> ->]].
    destruct (iter_matches bracket_here fuel _ [] rest). cbn [fst].
    split; [discriminate|]. intros H. exfalso. apply H. now exists [], b, rest.
  - destruct s as [|x s]; cbn [fst].
    + split; [|reflexivity]. intros _ [a [b [c H]]]. now destruct a.
    + cbn [length] in Hlen. rewrite (IH (Some x) (gap ++ [x]) s ltac:(lia)).
      split; intros H [a [b [c Hs]]]; apply H.
      * destruct a as [|y a]; cbn [app] in Hs; injection Hs as -> Hs.
        -- subst s. now contradiction (bracket_here_none prev b c).
        -- now exists a, b, c.
      * exists (x :: a), b, c. cbn [app]. now rewrite Hs.
Qed.

Lemma re_search_bracket_none (s : str) :
  re_search bracket_re s = None <-> ~ has_bracketed_span s.
Proof.
  unfold re_search, finditer.
  rewrite (iter_matches_ext _ _ match_here_bracket).
  rewrite <- (@iter_bracket_none (S (length s)) None [] s) by lia.
  destruct (fst (iter_matches bracket_here (S (length s)) None [] s))
    as [|[g m] l]; split; congruence.
Qed.

(** [strip] keeps a stretch of the text. *)
Lemma strip_infix (s : str) : exists pre post, s = pre ++ strip s ++ post.
Proof.
  unfold strip, rstrip, lstrip.
  destruct (drop_while_piece is_space s) as [pre [Epre _]].
  destruct (drop_while_piece is_space (rev (drop_while is_space s)))
    as [y [Ey _]].
  exists pre, (rev y). rewrite Epre at 1. f_equal.
  rewrite <- (rev_involutive (drop_while is_space s)) at 1.
  rewrite Ey at 1. now rewrite rev_app_distr.
Qed.

Lemma strip_bracketed_span (s : str) :
  has_bracketed_span (strip s) -> has_bracketed_span s.
Proof.
  intros [a [b [c E]]]. destruct (strip_infix s) as [pre [post Hs]].
  exists (pre ++ a), b, (c ++ post). rewrite Hs at 1. rewrite E.
  rewrite <- !app_assoc. cbn [app]. rewrite <- !app_assoc. reflexivity.
Qed.

(** ** The Task Builder *)

Lemma loop_body_task_of (tasks : list Task) (s : str) :
  loop_body tasks s = tasks ++ task_of s.
Proof.
  unfold loop_body, task_of.
  destruct (parse_time_range s) as [|a [|b l]]; cbn [negb map app firstn hd_error].
  - now rewrite app_nil_r.
  - reflexivity.
  - reflexivity.
Qed.

(** The unpacking [start, end = (times + [None])[:2]] never fails behind
    the guard [if not times: continue]. *)
Lemma unpack_two (times : list str) :
  times <> [] ->
  exists first, firstn 2 (map Some times ++ [None])
                = [Some first; hd_error (tl times)].
Proof.
  destruct times as [|a [|b l]]; [congruence| |]; intros _; now exists a.
Qed.

Lemma fold_loop_body (l : list str) (acc : list Task) :
  fold_left loop_body l acc = acc ++ flat_map task_of l.
Proof.
  revert acc. induction l as [|s l IH]; intros acc; cbn [fold_left flat_map].
  - now rewrite app_nil_r.
  - now rewrite IH, loop_body_task_of, app_assoc.
Qed.

Lemma build_tasks_flat_map (raw_text : str) :
  build_tasks_from_text raw_text = flat_map task_of (sentences raw_text).
Proof. unfold build_tasks_from_text. apply fold_loop_body. Qed.

Lemma task_of_has_times (s : str) :
  has_times s = true ->
  exists first others,
    parse_time_range s = first :: others
    /\ task_of s = [ {| title := task_title s;
                        start := Some first;
                        end_ := hd_error others |} ].
Proof.
  unfold has_times, task_of.
  destruct (parse_time_range s) as [|a l]; [discriminate|]. eauto.
Qed.



Lemma map_filter_commute {A B : Type} (f : A -> B) (p : B -> bool) (l : list A) :
  map f (filter (fun x => p (f x)) l) = filter p (map f l).
Proof.
  induction l as [|x l IH]; cbn [map filter]; [reflexivity|].
  destruct (p (f x)); cbn [map]; now rewrite IH.
Qed.

Lemma forallb_app_one (p : ascii -> bool) (s : str) (c : ascii) :
  forallb p (s ++ [c]) = forallb p s && p c.
Proof. rewrite forallb_app. cbn. now rewrite andb_true_r. Qed.

Lemma split_on_cut (cur s : str) :
  forallb (fun c => negb (is_separator c)) cur = true ->
  cut_at_separators (cur ++ s) (split_on is_separator cur s).
Proof.
  revert cur. induction s as [|c s IH]; intros cur Hcur; cbn [split_on].
  - rewrite app_nil_r. now constructor.
  - destruct (is_separator c) eqn:Ec.
    + apply cut_more; auto. apply (IH []). reflexivity.
    + replace (cur ++ c :: s) with ((cur ++ [c]) ++ s)
        by (now rewrite <- app_assoc).
      apply IH. rewrite forallb_app_one, Hcur, Ec. reflexivity.
Qed.

Lemma re_split_cut (raw_text : str) :
  cut_at_separators raw_text (re_split separator_re raw_text).
Proof.
  unfold separator_re. rewrite re_split_class. now apply (split_on_cut []).
Qed.

Lemma sentences_filter_strip (raw_text : str) :
  sentences raw_text
  = filter truthy (map strip (re_split separator_re raw_text)).
Proof. unfold sentences. apply map_filter_commute. Qed.







Lemma extraction_shapes (s : str) (ms : list str) :
  extraction s ms -> Forall time_shape ms.
Proof.
  induction 1 as [|c s ms Hc H IH|m s t ms Ht [Hshape _] H IH];
    auto.
Qed.

Lemma parse_time_range_extraction (text : str) :
  extraction text (parse_time_range text).
Proof.
  rewrite parse_time_range_iter. apply iter_time_extraction. lia.
Qed.

Lemma time_shape_nonempty (m : str) : time_shape m -> m <> [].
Proof.
  intros H. destruct (time_shape_starts H) as [d [tl [-> _]]]. discriminate.
Qed.

(** *** No pattern of the program matches the empty string *)

Lemma star_class_calls (p : ascii -> bool) (prev : option ascii) (s : str)
  (k : cont) (x : str) :
  star_class p prev s k = Some x ->
  exists prev' s', k prev' s' = Some x /\ length s' <= length s.
Proof.
  revert prev. induction s as [|c s IH]; intros prev; cbn [star_class].
  - intros H. now exists prev, [].
  - assert (Hk : k prev (c :: s) = Some x ->
                 exists prev' s', k prev' s' = Some x
                                  /\ length s' <= length (c :: s))
      by (intros H; now exists prev, (c :: s)).
    destruct (p c); [|exact Hk].
    destruct (star_class p (Some c) s k) as [y|] eqn:E; cbn [or_else];
      [|exact Hk].
    intros [= ->]. destruct (IH _ E) as [prev' [s' [H Hlen]]].
    exists prev', s'. split; [exact H|]. cbn [length]. lia.
Qed.

Lemma consumed_nonempty (s rest : str) :
  length rest < length s -> consumed s rest <> [].
Proof.
  unfold consumed. intros H E. apply (f_equal (@length ascii)) in E.
  rewrite length_firstn in E. cbn [length] in E. lia.
Qed.

Lemma match_here_tail_nonempty (prev : option ascii) (s m rest : str) :
  match_here tail_re prev s = Some (m, rest) -> m <> [].
Proof.
  unfold match_here, tail_re.
  change (run (Seq WordBoundary ?r) prev s ?k)
    with (if xorb (word_before prev) (word_after s)
          then run r prev s k else None).
  destruct (xorb _ _); [|discriminate].
  destruct s as [|c s]; [discriminate|].
  change (run (Seq (Class is_digit) (Seq (Star dot) EndAnchor)) prev (c :: s) ?k)
    with (if is_digit c
          then run (Star dot) (Some c) s (fun p s' => run EndAnchor p s' k)
          else None).
  destruct (is_digit c); [|discriminate]. unfold dot. rewrite run_star_class.
  destruct (star_class _ _ _ _) as [x|] eqn:E; [|discriminate].
  change (firstn (length (c :: s) - length x) (c :: s))
    with (consumed (c :: s) x).
  intros [= <- <-]. apply consumed_nonempty.
  destruct (star_class_calls _ _ _ _ E) as [prev' [s' [Hk Hlen]]].
  assert (x = s') as ->.
  { destruct s' as [|a [|b s']]; cbn [run] in Hk;
      [congruence|destruct (is_newline a); congruence|discriminate]. }
  cbn [length]. lia.
Qed.

Lemma patterns_never_match_empty (r : regex) (prev : option ascii)
  (s m rest : str) :
  In r [time_re; separator_re; tail_re; bracket_re] ->
  match_here r prev s = Some (m, rest) -> m <> [].
Proof.
  intros [<-|[<-|[<-|[<-|[]]]]].
  - rewrite match_here_time. unfold time_here.
    destruct (time_rest s) as [x|] eqn:E; [|discriminate].
    intros [= <- <-]. now destruct (time_rest_longest_time _ E) as [_ [H _]].
  - unfold separator_re. rewrite match_here_class.
    destruct s as [|c s]; [discriminate|].
    destruct (is_separator c); [|discriminate]. now intros [= <- _].
  - apply match_here_tail_nonempty.
  - rewrite match_here_bracket. intros H.
    destruct (bracket_here_some _ _ H) as [b [_ ->]]. discriminate.
Qed.

(** ** Claims on the extractor and the Task Builder *)

Lemma task_title_nonempty (s : str) : task_title s <> [].
Proof.
  unfold task_title. cbv zeta.
  destruct (truthy (capitalize (strip (re_sub tail_re [] s)))) eqn:E.
  - now apply truthy_true.
  - discriminate.
Qed.

Lemma parse_time_range_nonempty (s m : str) :
  In m (parse_time_range s) -> m <> [].
Proof.
  intros H. apply time_shape_nonempty.
  pose proof (extraction_shapes (parse_time_range_extraction s)) as Hall.
  rewrite Forall_forall in Hall. now apply Hall.
Qed.

Lemma built_task_fields (s : str) (t : Task) :
  task_of s = [t] ->
  title t = task_title s
  /\ start t = hd_error (parse_time_range s)
  /\ end_ t = hd_error (tl (parse_time_range s))
  /\ exists first, start t = Some first /\ first <> [].
Proof.
  unfold task_of. destruct (parse_time_range s) as [|a l] eqn:E;
    [discriminate|]. intros [= <-]. cbn [title start end_ hd_error tl].
  repeat split. exists a. split; [reflexivity|].
  apply (@parse_time_range_nonempty s). rewrite E. now left.
Qed.







(** C9.  Every task of the Task Builder has a start that is not null (and
    not empty) and a title that is not empty; the end can be null. *)
Theorem tasks_have_start_and_title :
  forall raw_text,
    Forall (fun t => (exists s, start t = Some s /\ s <> []) /\ title t <> [])
      (build_tasks_from_text raw_text)
    /\ exists t, In t (build_tasks_from_text (py "Call mom at 3"))
                 /\ end_ t = None.
Proof.
  intros raw_text. split.
  - rewrite build_tasks_flat_map. apply Forall_forall. intros t Ht.
    apply in_flat_map in Ht. destruct Ht as [s [_ Ht]].
    assert (E : task_of s = [t]).
    { unfold task_of in *. destruct (parse_time_range s); [contradiction|].
      destruct Ht as [<-|[]]. reflexivity. }
    destruct (built_task_fields _ E) as [Htitle [_ [_ Hstart]]].
    split; [exact Hstart|]. rewrite Htitle. apply task_title_nonempty.
  - eexists. split; [left; reflexivity|reflexivity].
Qed.

(** ** The handler: status codes, emotion, envelope *)

(** The handler on a request that passes both checks, written out. *)
Lemma plan_day_success client pipeline json_loads data w :
  text_of data <> [] ->
  let text := text_of data in
  let senti := pipeline (firstn 500 text) in
  let built := build_tasks_from_text text in
  let emotion := emotion_of (senti_label senti) (length built) in
  let out := generate_dynamic_suggestions client json_loads built emotion
               (after_classifier (firstn 500 text) w) in
  plan_day client (Some pipeline) json_loads data w =
    ({| status := 200;
        body := PlanBody
          {| sentiment := senti_label senti;
             score := senti_score senti;
             detectedEmotion := emotion;
             taskCount := length built;
             tasks := built;
             suggestions := fst out;
             message := if 8 <=? length built
                        then hectic_message else balanced_message |} |},
     snd out).
Proof.
  intros Hne. unfold plan_day, text_of in *.
  destruct (text_member data) as [t|]; [|congruence].
  destruct t as [|c t]; [congruence|]. cbn [truthy negb].
  unfold bind, call_pipeline, ret, after_classifier, emotion_of. cbn zeta.
  destruct (generate_dynamic_suggestions _ _ _ _ _); reflexivity.
Qed.

Lemma plan_day_no_text client sentiment_pipeline json_loads data w :
  text_of data = [] ->
  plan_day client sentiment_pipeline json_loads data w =
    ({| status := 400; body := ErrorBody (py "No text provided") |}, w).
Proof.
  unfold plan_day, text_of. destruct (text_member data) as [t|]; intros H.
  - subst t. reflexivity.
  - reflexivity.
Qed.

Lemma plan_day_no_model client json_loads data w :
  text_of data <> [] ->
  plan_day client None json_loads data w =
    ({| status := 500; body := ErrorBody (py "Sentiment model not loaded") |}, w).
Proof.
  unfold plan_day, text_of. destruct (text_member data) as [t|]; intros H.
  - destruct t; [congruence|reflexivity].
  - congruence.
Qed.


Lemma stressed_not_balanced : py "Stressed" <> py "Balanced".
Proof. discriminate. Qed.

Lemma emotion_of_stressed (label : str) (workload : nat) :
  emotion_of label workload = py "Stressed"
  <-> (label = py "NEGATIVE" \/ 8 <= workload).
Proof.
  unfold emotion_of.
  destruct (str_eqb label (py "NEGATIVE")) eqn:El;
    destruct (8 <=? workload) eqn:Ew; cbn [orb].
  - apply str_eqb_eq in El. split; auto.
  - apply str_eqb_eq in El. split; auto.
  - apply Nat.leb_le in Ew. split; auto.
  - split.
    + intros H. symmetry in H. now apply stressed_not_balanced in H.
    + intros [H|H].
      * apply str_eqb_eq in H. congruence.
      * apply Nat.leb_le in H. congruence.
Qed.


Lemma plan_day_200 client sentiment_pipeline json_loads data w :
  status (respond client sentiment_pipeline json_loads data w) = 200 ->
  text_of data <> [] /\ exists pipeline, sentiment_pipeline = Some pipeline.
Proof.
  unfold respond. intros H.
  destruct (list_eq_dec ascii_dec (text_of data) []) as [E|E].
  - rewrite plan_day_no_text in H by exact E. discriminate.
  - split; [exact E|]. destruct sentiment_pipeline as [p|]; [eauto|].
    rewrite plan_day_no_model in H by exact E. discriminate.
Qed.


(** C10.  In every 200 response [taskCount] is the length of [tasks], and
    [message] is one of two fixed strings, the first exactly when
    [taskCount >= 8]. *)
Theorem envelope_count_and_message :
  forall client sentiment_pipeline json_loads data w,
    status (respond client sentiment_pipeline json_loads data w) = 200 ->
    exists e,
      envelope_of (respond client sentiment_pipeline json_loads data w)
        = Some e
      /\ taskCount e = length (tasks e)
      /\ message e =
           (if 8 <=? taskCount e then hectic_message else balanced_message)
      /\ (message e = hectic_message \/ message e = balanced_message)
      /\ hectic_message <> balanced_message.
Proof.
  intros client sp jl data w H200.
  destruct (plan_day_200 _ _ _ _ _ H200) as [Hne [p ->]].
  unfold respond. rewrite plan_day_success by exact Hne.
  cbn [fst envelope_of body].
  eexists. split; [reflexivity|]. cbn [taskCount tasks message].
  split; [reflexivity|]. split; [reflexivity|].
  split; [destruct (8 <=? _); auto|discriminate].
Qed.

(** ** The Suggestion Generator *)

Lemma read_completion_degraded json_loads (c : Completion) :
  degraded json_loads c -> read_completion json_loads c = JArray [].
Proof.
  destruct c as [|text]; cbn [degraded read_completion]; [reflexivity|].
  intros [Hno|[span [Hspan Hloads]]].
  - assert (E : re_search bracket_re (strip text) = None).
    { apply re_search_bracket_none. intros H. apply Hno.
      now apply strip_bracketed_span. }
    now rewrite E.
  - now rewrite Hspan, Hloads.
Qed.

(** With tasks and a client at hand, exactly one request goes out. *)
Lemma generate_calls_once groq json_loads t ts emotion w :
  generate_dynamic_suggestions (Some groq) json_loads (t :: ts) emotion w
  = (read_completion json_loads (groq (chat_request (t :: ts) emotion)),
     {| classified := classified w;
        requested := requested w ++ [chat_request (t :: ts) emotion] |}).
Proof. reflexivity. Qed.

Lemma generate_keeps_classified client json_loads tasks emotion w :
  classified (snd (generate_dynamic_suggestions client json_loads tasks emotion w))
  = classified w.
Proof.
  destruct tasks as [|t ts]; [reflexivity|]. now destruct client.
Qed.

(** C6.  With an empty task list, or without a client, the generator
    returns the empty list at once: the world is as before, no request has
    gone out. *)
Theorem suggestions_short_circuit :
  forall client json_loads tasks emotion w,
    tasks = [] \/ client = None ->
    generate_dynamic_suggestions client json_loads tasks emotion w
      = (JArray [], w)
    /\ requested
         (snd (generate_dynamic_suggestions client json_loads tasks emotion w))
       = requested w.
Proof.
  intros client jl tasks emotion w [->| ->].
  - split; reflexivity.
  - destruct tasks; split; reflexivity.
Qed.

(** C1.  When the call to the LLM raises, or its text holds no bracketed
    span, or the span is not JSON, the generator returns the empty list;
    the request that led to the call is still answered with 200 and
    [suggestions] the empty list. *)
Theorem degraded_llm_gives_no_suggestions :
  forall client pipeline json_loads tasks emotion data w,
    (forall groq, client = Some groq ->
       degraded json_loads (groq (chat_request tasks emotion))) ->
    fst (generate_dynamic_suggestions client json_loads tasks emotion w)
      = JArray []
    /\ (text_of data <> [] ->
        tasks = build_tasks_from_text (text_of data) ->
        emotion = emotion_of
                    (senti_label (pipeline (firstn 500 (text_of data))))
                    (length tasks) ->
        status (respond client (Some pipeline) json_loads data w) = 200
        /\ option_map suggestions
             (envelope_of (respond client (Some pipeline) json_loads data w))
           = Some (JArray [])).
Proof.
  intros client pipeline jl tasks emotion data w Hdeg.
  assert (Hgen : forall w',
    fst (generate_dynamic_suggestions client jl tasks emotion w') = JArray []).
  { intros w'. destruct tasks as [|t ts]; [reflexivity|].
    destruct client as [groq|]; [|reflexivity].
    rewrite generate_calls_once. cbn [fst].
    apply read_completion_degraded. now apply Hdeg. }
  split; [apply Hgen|]. intros Hne -> ->. unfold respond.
  rewrite plan_day_success by exact Hne.
  cbn [fst status envelope_of body option_map suggestions].
  split; [reflexivity|]. now rewrite Hgen.
Qed.

Lemma envelope_needs_text client sentiment_pipeline json_loads data w e :
  envelope_of (respond client sentiment_pipeline json_loads data w) = Some e ->
  text_of data <> [].
Proof.
  unfold respond. intros H E. rewrite plan_day_no_text in H by exact E.
  discriminate.
Qed.

(** C8.  On a request with text the classifier is asked once, about the
    first 500 characters, and the Task Builder gets the whole text; so the
    sentiment and score of two requests are the same as soon as their
    texts agree on the first 500 characters, whatever tasks follow. *)
Theorem classifier_sees_first_500 :
  forall client pipeline json_loads data w,
    text_of data <> [] ->
    classified (world_after client (Some pipeline) json_loads data w)
      = classified w ++ [firstn 500 (text_of data)]
    /\ exists e,
         envelope_of (respond client (Some pipeline) json_loads data w)
           = Some e
         /\ sentiment e = senti_label (pipeline (firstn 500 (text_of data)))
         /\ score e = senti_score (pipeline (firstn 500 (text_of data)))
         /\ tasks e = build_tasks_from_text (text_of data)
         /\ (forall client' json_loads' data' w' e',
               firstn 500 (text_of data') = firstn 500 (text_of data) ->
               envelope_of
                 (respond client' (Some pipeline) json_loads' data' w')
                 = Some e' ->
               sentiment e' = sentiment e /\ score e' = score e).
Proof.
  intros client pipeline jl data w Hne. unfold world_after, respond.
  rewrite plan_day_success by exact Hne. cbn [fst snd].
  remember (firstn 500 (text_of data)) as span eqn:Espan. split.
  - now rewrite generate_keeps_classified.
  - eexists. cbn [envelope_of body]. split; [reflexivity|].
    cbn [sentiment score tasks].
    split; [reflexivity|]. split; [reflexivity|]. split; [reflexivity|].
    intros client' jl' data' w' e' Hsame He'.
    pose proof (envelope_needs_text _ _ _ _ _ He') as Hne'.
    unfold respond in He'. rewrite plan_day_success in He' by exact Hne'.
    rewrite Hsame in He'. cbn [fst envelope_of body] in He'.
    injection He' as <-. cbn [sentiment score]. now split.
Qed.

(** ** The theorems at work on sample requests *)

(** The two refusals, on concrete requests. *)
Example plan_day_without_text :
  respond None (Some sunny_pipeline) loads_empty_array
    {| text_member := None |} fresh_world
  = {| status := 400; body := ErrorBody (py "No text provided") |}.
Proof. reflexivity. Qed.

Example plan_day_without_model :
  respond (Some chatty_groq) None loads_empty_array gym_request fresh_world
  = {| status := 500; body := ErrorBody (py "Sentiment model not loaded") |}.
Proof. reflexivity. Qed.

(** Two texts that agree on their first 500 characters and differ in their
    tasks. *)
Example same_span_other_tasks :
  let long := repeat "a"%char 500 in
  firstn 500 (long ++ py " at 5") = firstn 500 long
  /\ build_tasks_from_text (long ++ py " at 5") <> build_tasks_from_text long.
Proof. split; [reflexivity|vm_compute; discriminate]. Qed.


Lemma envelope_count_and_message_witness :
  status (respond (Some failing_groq) (Some sunny_pipeline) loads_empty_array
            gym_request fresh_world) = 200
  /\ exists e,
       envelope_of (respond (Some failing_groq) (Some sunny_pipeline)
                      loads_empty_array gym_request fresh_world) = Some e
       /\ taskCount e = length (tasks e)
       /\ message e = balanced_message.
Proof.
  assert (H : status (respond (Some failing_groq) (Some sunny_pipeline)
                        loads_empty_array gym_request fresh_world) = 200)
    by reflexivity.
  split; [exact H|].
  destruct (envelope_count_and_message _ _ _ _ _ H)
    as [e [He [Hcount [Hmsg _]]]].
  exists e. split; [exact He|]. split; [exact Hcount|].
  rewrite Hmsg. vm_compute in He. injection He as <-. reflexivity.
Defined.

Lemma suggestions_short_circuit_witness :
  (@nil Task = [] \/ Some chatty_groq = None)
  /\ generate_dynamic_suggestions (Some chatty_groq) loads_empty_array []
       (py "Balanced") fresh_world
     = (JArray [], fresh_world).
Proof.
  assert (H : @nil Task = [] \/ Some chatty_groq = None)
    by (left; reflexivity).
  split; [exact H|].
  exact (proj1 (@suggestions_short_circuit (Some chatty_groq)
                  loads_empty_array [] (py "Balanced") fresh_world H)).
Defined.

Lemma degraded_llm_gives_no_suggestions_witness :
  degraded loads_empty_array
    (chatty_groq
       (chat_request (build_tasks_from_text (text_of gym_request))
          (py "Balanced")))
  /\ status (respond (Some chatty_groq) (Some sunny_pipeline)
               loads_empty_array gym_request fresh_world) = 200
  /\ option_map suggestions
       (envelope_of (respond (Some chatty_groq) (Some sunny_pipeline)
                       loads_empty_array gym_request fresh_world))
     = Some (JArray []).
Proof.
  assert (H : degraded loads_empty_array
                (chatty_groq
                   (chat_request (build_tasks_from_text (text_of gym_request))
                      (py "Balanced")))).
  { right. exists (py "[tea at 4, walk at 6]"). split; reflexivity. }
  split; [exact H|].
  refine (proj2 (@degraded_llm_gives_no_suggestions
                   (Some chatty_groq) sunny_pipeline loads_empty_array
                   (build_tasks_from_text (text_of gym_request))
                   (py "Balanced") gym_request fresh_world _)
            _ _ _).
  - intros groq E. injection E as <-. exact H.
  - discriminate.
  - reflexivity.
  - reflexivity.
Defined.

Lemma classifier_sees_first_500_witness :
  text_of gym_request <> []
  /\ classified (world_after (Some vague_groq) (Some sunny_pipeline)
                   loads_empty_array gym_request fresh_world)
     = [py "Gym at 6, then lunch at 12 to 1. Relax"].
Proof.
  assert (H : text_of gym_request <> []) by discriminate.
  split; [exact H|].
  exact (proj1 (@classifier_sees_first_500 (Some vague_groq) sunny_pipeline
                  loads_empty_array gym_request fresh_world H)).
Defined.

(** Titles by design: the case of the rest, the word boundary, the
    default. *)
Example titles_of_three_fragments :
  map title (build_tasks_from_text (py "Call Mom at 3; Room B12 opens 7pm; 5pm"))
  = [py "Call mom at"; py "Room b12 opens"; py "Task"]
  /\ map title_by_design [py "Call Mom at 3"; py "Room B12 opens 7pm"; py "5pm"]
     = [py "Call mom at"; py "Room b12 opens"; py "Task"].
Proof. split; reflexivity. Qed.

(** * Further properties of the helpers *)

(** ** The extractor and the digits of the text *)

Lemma extraction_none_iff (s : str) (ms : list str) :
  extraction s ms -> (ms = [] <-> existsb is_digit s = false).
Proof.
  induction 1 as [|c s ms Hc H IH|m s t ms Ht [Hshape _] H IH].
  - split; reflexivity.
  - cbn [existsb]. now rewrite Hc.
  - destruct (time_shape_starts Hshape) as [d [tl [-> Hd]]]. subst t.
    cbn [app existsb]. rewrite Hd. split; discriminate.
Qed.

Lemma parse_time_range_none_iff (text : str) :
  parse_time_range text = [] <-> existsb is_digit text = false.
Proof. apply extraction_none_iff. apply parse_time_range_extraction. Qed.

Lemma has_times_digit (s : str) : has_times s = existsb is_digit s.
Proof.
  unfold has_times. pose proof (parse_time_range_none_iff s) as [H1 H2].
  destruct (parse_time_range s); destruct (existsb is_digit s);
    try reflexivity.
  - now specialize (H1 eq_refl).
  - now specialize (H2 eq_refl).
Qed.

Lemma extraction_reassemble (s : str) (ms : list str) :
  extraction s ms ->
  exists gms last,
    map snd gms = ms
    /\ s = reassemble gms last
    /\ Forall (fun gm => existsb is_digit (fst gm) = false) gms
    /\ existsb is_digit last = false.
Proof.
  induction 1 as [|c s ms Hc H IH|m s t ms Ht Hlong H IH].
  - exists [], []. repeat split; constructor.
  - destruct IH as [gms [last [Hms [Hs [Hg Hl]]]]].
    destruct gms as [|[g m] gms].
    + exists [], (c :: last). cbn in Hs. subst s.
      split; [exact Hms|]. split; [reflexivity|]. split; [constructor|].
      cbn [existsb]. now rewrite Hc.
    + exists ((c :: g, m) :: gms), last. split; [exact Hms|].
      split; [now rewrite Hs|]. split; [|exact Hl].
      inversion Hg as [|x l Hx Hrest]; subst. constructor; [|exact Hrest].
      cbn [fst existsb] in *. now rewrite Hc.
  - destruct IH as [gms [last [Hms [Hs [Hg Hl]]]]].
    exists (([], m) :: gms), last. split; [cbn; now rewrite Hms|].
    split; [|split; [now constructor|exact Hl]].
    subst t. rewrite Hs. unfold reassemble. cbn [map concat fst snd app].
    now rewrite <- app_assoc.
Qed.

(** X1.  The extractor returns nothing exactly for a text without a
    digit. *)
Theorem extractor_silent_without_digits :
  forall text,
    parse_time_range text = [] <-> existsb is_digit text = false.
Proof. exact parse_time_range_none_iff. Qed.

(** X2.  The returned matches are disjoint stretches of the text, in the
    order of the text; each starts with a digit, and the text skipped
    before, between and behind them holds no digit. *)
Theorem extractor_covers_every_digit :
  forall text,
    exists gms last,
      map snd gms = parse_time_range text
      /\ text = reassemble gms last
      /\ Forall (fun gm => existsb is_digit (fst gm) = false) gms
      /\ existsb is_digit last = false
      /\ Forall (fun m => exists d tl, m = d :: tl /\ is_digit d = true)
           (parse_time_range text).
Proof.
  intros text. pose proof (parse_time_range_extraction text) as H.
  destruct (extraction_reassemble H) as [gms [last [H1 [H2 [H3 H4]]]]].
  exists gms, last. repeat (split; [assumption|]).
  eapply Forall_impl; [|apply (extraction_shapes H)].
  intros m. apply time_shape_starts.
Qed.

(** ** Fragments *)

Lemma infix_refl (s : str) : infix s s.
Proof. exists [], []. cbn. now rewrite app_nil_r. Qed.

Lemma infix_trans (a b c : str) : infix a b -> infix b c -> infix a c.
Proof.
  intros [p1 [q1 ->]] [p2 [q2 ->]]. exists (p2 ++ p1), (q1 ++ q2).
  now rewrite <- !app_assoc.
Qed.


Lemma strip_parts (s : str) :
  exists pre post,
    s = pre ++ strip s ++ post /\ spaces pre /\ spaces post.
Proof.
  unfold strip, rstrip, lstrip.
  destruct (drop_while_piece is_space s) as [pre [Epre Hpre]].
  destruct (drop_while_piece is_space (rev (drop_while is_space s)))
    as [y [Ey Hy]].
  exists pre, (rev y). split; [|split; [exact Hpre|]].
  - rewrite Epre at 1. f_equal.
    rewrite <- (rev_involutive (drop_while is_space s)) at 1.
    rewrite Ey at 1. now rewrite rev_app_distr.
  - unfold spaces. apply Forall_rev. exact Hy.
Qed.


Lemma spaces_filter (p : ascii -> bool) (ws : str) :
  (forall c, is_space c = true -> p c = false) ->
  spaces ws -> filter p ws = [].
Proof.
  intros Hp H. induction H as [|c ws Hc H IH]; [reflexivity|].
  cbn [filter]. now rewrite (Hp c Hc).
Qed.

Lemma space_not_digit (c : ascii) : is_space c = true -> is_digit c = false.
Proof.
  intros H. destruct (is_digit c) eqn:E; [|reflexivity].
  apply digit_not_space in E. congruence.
Qed.

Lemma strip_keeps_digits (s : str) :
  filter is_digit (strip s) = filter is_digit s.
Proof.
  destruct (strip_parts s) as [pre [post [E [Hpre Hpost]]]].
  rewrite E at 2. rewrite !filter_app.
  rewrite (spaces_filter is_digit space_not_digit Hpre).
  rewrite (spaces_filter is_digit space_not_digit Hpost).
  now rewrite app_nil_r.
Qed.





Lemma drop_while_keeps (p : ascii -> bool) (s : str) (c : ascii) :
  In c s -> p c = false -> In c (drop_while p s).
Proof.
  intros Hin Hc. induction s as [|x s IH]; [contradiction|].
  cbn [drop_while]. destruct (p x) eqn:E; [|exact Hin].
  destruct Hin as [->|Hin]; [congruence|now apply IH].
Qed.

Lemma strip_keeps (s : str) (c : ascii) :
  In c s -> is_space c = false -> In c (strip s).
Proof.
  intros Hin Hc. unfold strip, rstrip, lstrip.
  apply in_rev. rewrite rev_involutive.
  apply drop_while_keeps; [|exact Hc].
  apply in_rev. rewrite rev_involutive. now apply drop_while_keeps.
Qed.

Lemma digit_not_separator (c : ascii) :
  is_digit c = true -> is_separator c = false.
Proof. destruct c as [[] [] [] [] [] [] [] []]; (discriminate || reflexivity). Qed.



Lemma cut_pieces_cover (raw : str) (pieces : list str) (c : ascii) :
  cut_at_separators raw pieces -> In c raw -> is_separator c = false ->
  exists piece, In piece pieces /\ In c piece.
Proof.
  induction 1 as [piece Hp|piece x rest pieces Hp Hx H IH]; intros Hin Hc.
  - exists piece. split; [now left|exact Hin].
  - apply in_app_or in Hin. destruct Hin as [Hin|[->|Hin]].
    + exists piece. split; [now left|exact Hin].
    + congruence.
    + destruct (IH Hin Hc) as [p [Hp1 Hp2]]. exists p. split; [now right|exact Hp2].
Qed.

Lemma forallb_filter_nil (p : ascii -> bool) (s : str) :
  forallb (fun c => negb (p c)) s = true -> filter p s = [].
Proof.
  induction s as [|c s IH]; [reflexivity|]. cbn [forallb filter].
  intros H. apply andb_true_iff in H. destruct H as [Hc H].
  destruct (p c); [discriminate|now apply IH].
Qed.

Lemma cut_pieces_length (raw : str) (pieces : list str) :
  cut_at_separators raw pieces ->
  length pieces = S (count is_separator raw).
Proof.
  unfold count.
  induction 1 as [piece Hp|piece c rest pieces Hp Hc H IH]; cbn [length].
  - now rewrite (forallb_filter_nil _ _ Hp).
  - rewrite filter_app, (forallb_filter_nil _ _ Hp). cbn [app filter].
    rewrite Hc. cbn [length]. now rewrite IH.
Qed.

Lemma cut_pieces_digits (raw : str) (pieces : list str) :
  cut_at_separators raw pieces ->
  count is_digit raw = list_sum (map (count is_digit) pieces).
Proof.
  unfold count.
  induction 1 as [piece Hp|piece c rest pieces Hp Hc H IH];
    cbn [map list_sum fold_right].
  - lia.
  - rewrite filter_app, length_app. cbn [filter].
    destruct (is_digit c) eqn:E;
      [apply digit_not_separator in E; congruence|]. now rewrite IH.
Qed.

Lemma fragment_from_piece (raw_text s : str) :
  In s (sentences raw_text) <->
  s <> [] /\ exists piece,
    In piece (re_split separator_re raw_text) /\ s = strip piece.
Proof.
  rewrite sentences_filter_strip, filter_In, in_map_iff, truthy_true.
  split.
  - intros [[piece [<- Hin]] Hne]. split; [exact Hne|now exists piece].
  - intros [Hne [piece [Hin ->]]]. split; [now exists piece|exact Hne].
Qed.


(** ** Tasks, digits and separators *)

Lemma task_of_length (s : str) :
  length (task_of s) = if has_times s then 1 else 0.
Proof. unfold task_of, has_times. now destruct (parse_time_range s). Qed.

Lemma flat_map_task_of_length (l : list str) :
  length (flat_map task_of l) = length (filter has_times l).
Proof.
  induction l as [|s l IH]; [reflexivity|]. cbn [flat_map filter].
  rewrite length_app, task_of_length, IH. now destruct (has_times s).
Qed.

Lemma filter_length_le {A : Type} (p : A -> bool) (l : list A) :
  length (filter p l) <= length l.
Proof.
  induction l as [|x l IH]; [reflexivity|]. cbn [filter].
  destruct (p x); cbn [length]; lia.
Qed.

Lemma existsb_count (p : ascii -> bool) (s : str) :
  existsb p s = true -> 1 <= count p s.
Proof.
  unfold count. induction s as [|c s IH]; [discriminate|].
  cbn [existsb filter]. destruct (p c); cbn [length orb]; [lia|exact IH].
Qed.

Lemma count_none (p : ascii -> bool) (s : str) :
  existsb p s = false <-> count p s = 0.
Proof.
  unfold count. induction s as [|c s IH]; [now split|].
  cbn [existsb filter]. destruct (p c); cbn [length orb]; [|exact IH].
  split; discriminate.
Qed.

Lemma timed_fragments_digits (l : list str) :
  length (filter has_times l) <= list_sum (map (count is_digit) l).
Proof.
  induction l as [|s l IH]; [reflexivity|].
  cbn [filter map list_sum fold_right]. fold (list_sum (map (count is_digit) l)).
  destruct (has_times s) eqn:E; [|lia].
  rewrite has_times_digit in E. apply existsb_count in E.
  cbn [length]. lia.
Qed.

Lemma filter_sum_le (p : str -> bool) (f : str -> nat) (l : list str) :
  list_sum (map f (filter p l)) <= list_sum (map f l).
Proof.
  induction l as [|s l IH]; [reflexivity|]. cbn [filter].
  destruct (p s); cbn [map list_sum fold_right];
    fold (list_sum (map f l)); try fold (list_sum (map f (filter p l))); lia.
Qed.

Lemma strip_count_digits (l : list str) :
  map (count is_digit) (map strip l) = map (count is_digit) l.
Proof.
  rewrite map_map. apply map_ext. intros s. unfold count.
  now rewrite strip_keeps_digits.
Qed.

Lemma task_count_bounds (raw_text : str) :
  length (build_tasks_from_text raw_text) <= S (count is_separator raw_text)
  /\ length (build_tasks_from_text raw_text) <= count is_digit raw_text.
Proof.
  rewrite build_tasks_flat_map, flat_map_task_of_length.
  pose proof (re_split_cut raw_text) as Hcut.
  rewrite sentences_filter_strip. split.
  - rewrite <- (cut_pieces_length Hcut).
    etransitivity; [apply filter_length_le|].
    etransitivity; [apply filter_length_le|]. now rewrite length_map.
  - rewrite (cut_pieces_digits Hcut).
    etransitivity; [apply timed_fragments_digits|].
    etransitivity; [apply filter_sum_le|]. now rewrite strip_count_digits.
Qed.

Lemma flat_map_nil {A B : Type} (f : A -> list B) (l : list A) :
  (forall x, In x l -> f x = []) -> flat_map f l = [].
Proof.
  induction l as [|x l IH]; intros H; [reflexivity|]. cbn [flat_map].
  rewrite (H x (or_introl eq_refl)). apply IH. intros y Hy. apply H. now right.
Qed.

Lemma build_tasks_none_iff (raw_text : str) :
  build_tasks_from_text raw_text = [] <-> existsb is_digit raw_text = false.
Proof.
  split.
  - intros Hnil. destruct (existsb is_digit raw_text) eqn:E; [|reflexivity].
    exfalso. apply existsb_exists in E. destruct E as [c [Hin Hc]].
    pose proof (re_split_cut raw_text) as Hcut.
    destruct (@cut_pieces_cover _ _ c Hcut Hin (digit_not_separator _ Hc))
      as [piece [Hp Hcp]].
    pose proof (@strip_keeps piece c Hcp (digit_not_space _ Hc)) as Hs.
    assert (Hfrag : In (strip piece) (sentences raw_text)).
    { apply fragment_from_piece. split; [now destruct (strip piece)|].
      now exists piece. }
    assert (Htimes : has_times (strip piece) = true).
    { rewrite has_times_digit. apply existsb_exists. now exists c. }
    rewrite build_tasks_flat_map in Hnil.
    assert (Hin' : forall t, In t (task_of (strip piece)) -> False).
    { intros t Ht.
      assert (In t (flat_map task_of (sentences raw_text)))
        by (apply in_flat_map; now exists (strip piece)).
      rewrite Hnil in H. contradiction. }
    destruct (task_of_has_times _ Htimes) as [a [others [_ Ht]]].
    rewrite Ht in Hin'. apply (Hin' _ (or_introl eq_refl)).
  - intros Hnone. pose proof (task_count_bounds raw_text) as [_ H].
    apply count_none in Hnone. rewrite Hnone in H.
    now destruct (build_tasks_from_text raw_text).
Qed.

(** X4.  The Task Builder returns no task exactly for a text without a
    digit. *)
Theorem no_digit_no_task :
  forall raw_text,
    build_tasks_from_text raw_text = [] <-> existsb is_digit raw_text = false.
Proof. exact build_tasks_none_iff. Qed.

(** X5.  There are never more tasks than separators plus one, and never
    more tasks than digits in the text. *)
Theorem task_count_is_bounded :
  forall raw_text,
    length (build_tasks_from_text raw_text) <= S (count is_separator raw_text)
    /\ length (build_tasks_from_text raw_text) <= count is_digit raw_text.
Proof. exact task_count_bounds. Qed.

Lemma split_on_separator (p : ascii -> bool) (cur a b : str) (c : ascii) :
  p c = true ->
  split_on p cur (a ++ c :: b) = split_on p cur a ++ split_on p [] b.
Proof.
  intros Hc. revert cur. induction a as [|x a IH]; intros cur;
    cbn [app split_on].
  - now rewrite Hc.
  - destruct (p x); [cbn [app]|]; now rewrite IH.
Qed.

Lemma sentences_separator (a b : str) (c : ascii) :
  is_separator c = true ->
  sentences (a ++ c :: b) = sentences a ++ sentences b.
Proof.
  intros Hc. rewrite !sentences_filter_strip. unfold separator_re.
  rewrite !re_split_class, (@split_on_separator _ [] a b c Hc).
  now rewrite map_app, filter_app.
Qed.

(** X6.  The tasks of two texts joined by a separator are the tasks of the
    first followed by the tasks of the second. *)
Theorem tasks_of_joined_texts :
  forall a b c,
    is_separator c = true ->
    build_tasks_from_text (a ++ c :: b)
    = build_tasks_from_text a ++ build_tasks_from_text b.
Proof.
  intros a b c Hc. rewrite !build_tasks_flat_map.
  now rewrite (@sentences_separator a b c Hc), flat_map_app.
Qed.

(** ** Titles *)







(** ** What a request does to the two capabilities *)

Lemma append_one_differs {A : Type} (l : list A) (x : A) : l ++ [x] <> l.
Proof.
  intros H. apply (f_equal (@length A)) in H. rewrite length_app in H.
  cbn [length] in H. lia.
Qed.

(** X8.  A request that is refused (400 or 500) reaches neither the
    classifier nor the LLM.  A request that is served asks the classifier
    once, about the first 500 characters, and sends at most one request to
    the LLM, for the model "llama-3.1-8b-instant" at temperature 0.4 and
    with the prompt built from the tasks and the emotion; it sends none
    exactly when there is no client or no task. *)
Theorem requests_reach_the_capabilities_at_most_once :
  forall client sentiment_pipeline json_loads data w,
    let r := respond client sentiment_pipeline json_loads data w in
    let w' := world_after client sentiment_pipeline json_loads data w in
    (status r <> 200 -> w' = w)
    /\ (status r = 200 ->
        classified w' = classified w ++ [firstn 500 (text_of data)]
        /\ (requested w' = requested w
            \/ exists e,
                 envelope_of r = Some e
                 /\ requested w'
                    = requested w
                        ++ [ {| model := py "llama-3.1-8b-instant";
                                user_content :=
                                  prompt (tasks e) (detectedEmotion e);
                                temperature := 4 # 10 |} ])
        /\ (requested w' = requested w
            <-> client = None
                \/ build_tasks_from_text (text_of data) = [])).
Proof.
  intros client sp jl data w. cbv zeta. unfold respond, world_after.
  destruct (list_eq_dec ascii_dec (text_of data) []) as [E|E].
  { rewrite plan_day_no_text by exact E. cbn [fst snd status].
    split; [reflexivity|discriminate]. }
  destruct sp as [p|].
  2:{ rewrite plan_day_no_model by exact E. cbn [fst snd status].
      split; [reflexivity|discriminate]. }
  rewrite plan_day_success by exact E. cbn [fst snd status].
  split; [congruence|]. intros _.
  remember (firstn 500 (text_of data)) as span eqn:Espan.
  split; [now rewrite generate_keeps_classified|].
  destruct (build_tasks_from_text (text_of data)) as [|t ts] eqn:Eb.
  { cbn [generate_dynamic_suggestions ret snd after_classifier requested].
    split; [now left|]. split; auto. }
  destruct client as [groq|].
  2:{ cbn [generate_dynamic_suggestions ret snd after_classifier requested].
      split; [now left|]. split; auto. }
  rewrite generate_calls_once. cbn [snd fst requested after_classifier].
  split.
  - right. eexists. split; [reflexivity|]. reflexivity.
  - split.
    + intros H. now apply append_one_differs in H.
    + intros [H|H]; discriminate.
Qed.

(** ** The span handed to [json.loads] *)

Lemma after_last_close_none (c : str) :
  ~ In "]"%char c -> after_last_close c = None.
Proof.
  induction c as [|x c IH]; intros H; [reflexivity|].
  cbn [after_last_close]. rewrite IH by (intros Hin; apply H; now right).
  cbn [or_else]. destruct (Ascii.eqb "]" x) eqn:E; [|reflexivity].
  apply Ascii.eqb_eq in E. exfalso. apply H. now left.
Qed.

Lemma after_last_close_last (b c : str) :
  ~ In "]"%char c -> after_last_close (b ++ "]"%char :: c) = Some c.
Proof.
  intros H. induction b as [|x b IH]; cbn [app after_last_close].
  - now rewrite (after_last_close_none _ H).
  - now rewrite IH.
Qed.

Lemma iter_bracket_outermost (b c : str) :
  ~ In "]"%char c ->
  forall a fuel prev gap,
    ~ In "["%char a ->
    length (a ++ "["%char :: b ++ "]"%char :: c) < fuel ->
    exists ms tl,
      iter_matches bracket_here fuel prev gap
        (a ++ "["%char :: b ++ "]"%char :: c)
      = ((gap ++ a, "["%char :: b ++ ["]"%char]) :: ms, tl).
Proof.
  intros Hc a. induction a as [|x a IH]; intros fuel prev gap Ha Hlen;
    (destruct fuel as [|fuel]; [lia|]).
  - cbn [app iter_matches bracket_here]. rewrite Ascii.eqb_refl.
    rewrite (@after_last_close_last b c Hc).
    replace (consumed ("["%char :: b ++ "]"%char :: c) c)
      with ("["%char :: b ++ ["]"%char]).
    2:{ symmetry. replace ("["%char :: b ++ "]"%char :: c)
          with (("["%char :: b ++ ["]"%char]) ++ c)
          by (cbn [app]; now rewrite <- app_assoc).
        apply consumed_app. }
    destruct (iter_matches bracket_here fuel _ [] c) as [ms tl].
    exists ms, tl. now rewrite app_nil_r.
  - assert (Hx : Ascii.eqb "[" x = false).
    { apply Ascii.eqb_neq. intros <-. apply Ha. now left. }
    cbn [app iter_matches bracket_here]. rewrite Hx.
    cbn [app length] in Hlen.
    destruct (IH fuel (Some x) (gap ++ [x])
                (fun H => Ha (or_intror H)) ltac:(lia)) as [ms [tl E]].
    exists ms, tl. rewrite E. now rewrite <- app_assoc.
Qed.

Lemma re_search_outermost (a b c : str) :
  ~ In "["%char a -> ~ In "]"%char c ->
  re_search bracket_re (a ++ "["%char :: b ++ "]"%char :: c)
  = Some ("["%char :: b ++ ["]"%char]).
Proof.
  intros Ha Hc. unfold re_search, finditer.
  rewrite (iter_matches_ext _ _ match_here_bracket).
  destruct (@iter_bracket_outermost b c Hc a
              (S (length (a ++ "["%char :: b ++ "]"%char :: c))) None []
              Ha ltac:(lia)) as [ms [tl E]].
  now rewrite E.
Qed.

(** X9.  When the stripped answer of the LLM holds brackets, the span that
    is decoded runs from its first '[' to its last ']': what stands in front
    of and behind these two is ignored, and the suggestions are the JSON
    value of the span, or the empty list when the span is not JSON. *)
Theorem suggestions_come_from_outermost_brackets :
  forall json_loads text a b c,
    strip text = a ++ "["%char :: b ++ "]"%char :: c ->
    ~ In "["%char a ->
    ~ In "]"%char c ->
    read_completion json_loads (Content text)
    = match json_loads ("["%char :: b ++ ["]"%char]) with
      | Some value => value
      | None => JArray []
      end.
Proof.
  intros jl text a b c E Ha Hc. cbn [read_completion].
  now rewrite E, (@re_search_outermost a b c Ha Hc).
Qed.

(** ** The prompt *)

Lemma join_infix (sep p : str) (parts : list str) :
  In p parts -> infix p (join sep parts).
Proof.
  induction parts as [|x rest IH]; [contradiction|]. intros [->|Hin].
  - destruct rest as [|y rest]; [apply infix_refl|].
    cbn [join]. now exists [], (sep ++ join sep (y :: rest)).
  - destruct rest as [|y rest]; [contradiction|].
    change (join sep (x :: y :: rest))
      with (x ++ sep ++ join sep (y :: rest)).
    apply infix_trans with (join sep (y :: rest)); [now apply IH|].
    exists (x ++ sep), []. now rewrite app_nil_r, <- app_assoc.
Qed.

(** X10.  The prompt sent to the LLM holds one line for every task, with
    its title, start and end ("None" for a missing end), and it names the
    emotion. *)
Theorem prompt_lists_every_task :
  forall tasks emotion,
    Forall
      (fun t =>
         infix (py "- " ++ title t ++ py " (" ++ show_field (start t)
                  ++ py " - " ++ show_field (end_ t) ++ py ")")
           (user_content (chat_request tasks emotion)))
      tasks
    /\ infix (py "The user's emotional state is: " ++ emotion ++ py ".")
         (user_content (chat_request tasks emotion)).
Proof.
  intros tasks emotion. cbn [chat_request user_content]. unfold prompt. split.
  - apply Forall_forall. intros t Ht.
    apply infix_trans with (schedule_text tasks).
    + unfold schedule_text. apply join_infix. apply in_map_iff. now exists t.
    + apply join_infix. cbn [In]. auto.
  - apply join_infix. cbn [In]. auto 10.
Qed.

(** ** Texts without digits, and hectic days *)

(** X11.  A text without any digit (also one of blanks only) is served:
    200 with no task, no suggestion, the balanced message and an emotion
    that follows the sentiment label alone; the classifier is asked once
    and the LLM not at all. *)
Theorem text_without_digits_is_served :
  forall client pipeline json_loads data w,
    text_of data <> [] ->
    existsb is_digit (text_of data) = false ->
    plan_day client (Some pipeline) json_loads data w
    = ({| status := 200;
          body := PlanBody
            {| sentiment := senti_label (pipeline (firstn 500 (text_of data)));
               score := senti_score (pipeline (firstn 500 (text_of data)));
               detectedEmotion :=
                 emotion_of
                   (senti_label (pipeline (firstn 500 (text_of data)))) 0;
               taskCount := 0;
               tasks := [];
               suggestions := JArray [];
               message := balanced_message |} |},
       {| classified := classified w ++ [firstn 500 (text_of data)];
          requested := requested w |}).
Proof.
  intros client pipeline jl data w Hne Hnone.
  rewrite plan_day_success by exact Hne.
  apply build_tasks_none_iff in Hnone. rewrite Hnone. reflexivity.
Qed.

Lemma some_inj {A : Type} (a b : A) : Some a = Some b -> a = b.
Proof. now intros [= ->]. Qed.

Lemma envelope_needs_model client sentiment_pipeline json_loads data w e :
  envelope_of (respond client sentiment_pipeline json_loads data w) = Some e ->
  exists pipeline, sentiment_pipeline = Some pipeline.
Proof.
  intros H. pose proof (envelope_needs_text _ _ _ _ _ H) as Hne.
  destruct sentiment_pipeline as [p|]; [now exists p|].
  unfold respond in H. rewrite plan_day_no_model in H by exact Hne.
  discriminate.
Qed.

(** X12.  The hectic message is only given to a text with at least seven
    separators and at least eight digits, and always together with the
    emotion "Stressed". *)
Theorem hectic_needs_separators_and_digits :
  forall client sentiment_pipeline json_loads data w e,
    envelope_of (respond client sentiment_pipeline json_loads data w) = Some e ->
    message e = hectic_message ->
    7 <= count is_separator (text_of data)
    /\ 8 <= count is_digit (text_of data)
    /\ detectedEmotion e = py "Stressed".
Proof.
  intros client sp jl data w e He Hmsg.
  pose proof (envelope_needs_text _ _ _ _ _ He) as Hne.
  destruct (envelope_needs_model _ _ _ _ _ He) as [p ->].
  unfold respond in He. rewrite plan_day_success in He by exact Hne.
  cbn [fst envelope_of body] in He.
  apply some_inj in He. subst e. cbn [message detectedEmotion] in *.
  pose proof (task_count_bounds (text_of data)) as [Hsep Hdig].
  destruct (8 <=? length (build_tasks_from_text (text_of data))) eqn:E.
  - apply Nat.leb_le in E. split; [lia|]. split; [lia|].
    apply emotion_of_stressed. right. exact E.
  - assert (Hd : hectic_message <> balanced_message) by discriminate.
    congruence.
Qed.

(** ** The further properties on sample inputs *)

Lemma tasks_of_joined_texts_witness :
  is_separator ";" = true
  /\ build_tasks_from_text (py "Gym at 6" ++ ";"%char :: py " lunch at 12 to 1")
     = build_tasks_from_text (py "Gym at 6")
         ++ build_tasks_from_text (py " lunch at 12 to 1").
Proof.
  assert (H : is_separator ";" = true) by reflexivity.
  split; [exact H|].
  exact (@tasks_of_joined_texts (py "Gym at 6") (py " lunch at 12 to 1")
           ";"%char H).
Defined.

Lemma suggestions_come_from_outermost_brackets_witness :
  strip (py "  Here you go: [ ] Enjoy!  ")
    = py "Here you go: " ++ "["%char :: py " " ++ "]"%char :: py " Enjoy!"
  /\ read_completion loads_empty_array (Content (py "  Here you go: [ ] Enjoy!  "))
     = match loads_empty_array (py "[ ]") with
       | Some value => value
       | None => JArray []
       end.
Proof.
  assert (H : strip (py "  Here you go: [ ] Enjoy!  ")
              = py "Here you go: " ++ "["%char :: py " " ++ "]"%char
                  :: py " Enjoy!") by reflexivity.
  split; [exact H|].
  refine (@suggestions_come_from_outermost_brackets loads_empty_array
            (py "  Here you go: [ ] Enjoy!  ") (py "Here you go: ") (py " ")
            (py " Enjoy!") H _ _).
  - cbn. intuition discriminate.
  - cbn. intuition discriminate.
Defined.

Lemma text_without_digits_is_served_witness :
  text_of {| text_member := Some (py "  rest and read ") |} <> []
  /\ existsb is_digit (text_of {| text_member := Some (py "  rest and read ") |})
     = false
  /\ snd (plan_day (Some chatty_groq) (Some gloomy_pipeline) loads_empty_array
            {| text_member := Some (py "  rest and read ") |} fresh_world)
     = {| classified := [py "  rest and read "]; requested := [] |}.
Proof.
  assert (H1 : text_of {| text_member := Some (py "  rest and read ") |} <> [])
    by discriminate.
  assert (H2 : existsb is_digit
                 (text_of {| text_member := Some (py "  rest and read ") |})
               = false) by reflexivity.
  split; [exact H1|]. split; [exact H2|].
  exact (f_equal snd
           (@text_without_digits_is_served (Some chatty_groq) gloomy_pipeline
              loads_empty_array
              {| text_member := Some (py "  rest and read ") |}
              fresh_world H1 H2)).
Defined.

Lemma hectic_needs_separators_and_digits_witness :
  exists e,
    envelope_of (respond None (Some sunny_pipeline) loads_empty_array
                   {| text_member := Some (py "1,2,3,4,5,6,7,8") |}
                   fresh_world) = Some e
    /\ message e = hectic_message
    /\ 7 <= count is_separator (py "1,2,3,4,5,6,7,8")
    /\ 8 <= count is_digit (py "1,2,3,4,5,6,7,8").
Proof.
  destruct (envelope_of
              (respond None (Some sunny_pipeline) loads_empty_array
                 {| text_member := Some (py "1,2,3,4,5,6,7,8") |}
                 fresh_world)) as [e|] eqn:He.
  2:{ vm_compute in He. discriminate. }
  assert (Hmsg : message e = hectic_message).
  { vm_compute in He. injection He as <-. reflexivity. }
  exists e. split; [reflexivity|]. split; [exact Hmsg|].
  destruct (@hectic_needs_separators_and_digits None (Some sunny_pipeline)
              loads_empty_array
              {| text_member := Some (py "1,2,3,4,5,6,7,8") |}
              fresh_world e He Hmsg) as [H1 [H2 _]].
  split; assumption.
Defined.
